(** * LoopLang: the persistent search agent of [main.py]

    A shallow embedding of [PersistentSearchAgent]: the [AgentState]
    aggregate, the six graph nodes, the conditional routing of
    [_build_graph] and the driver [run_agent], followed by the properties
    of the control loop.

    Conventions of the embedding.
    - Python [int] is [Z]; [str] is [string], the UTF-8 bytes of the text:
      [split], [strip] and slicing go by characters and by the blanks of
      [str.isspace]; [lower] and [upper] map the ASCII letters, which is
      what the keyword tests on lowered text look at.
    - A result record ([Dict[str, Any]]) is a [gmap string value]; the
      values the program stores are strings and lists of strings.
    - The world outside the process (language model, search provider, page
      crawler) is a state [World] threaded through every call, so two calls
      with the same argument may answer differently.
    - A call to the language model returns its text; the search provider
      and the crawler may raise, which the wrappers [search] and [crawler]
      catch.
    - Pacing delays ([asyncio.sleep]) and [print] have no effect on the
      state and are left out. *)

From Stdlib Require Import Ascii String ZArith Lia.
From stdpp Require Import base option list gmap strings pretty.

Local Open Scope Z_scope.

(** ** Strings *)

Module Str.

(** [c.lower()] on one ASCII character. *)
Definition lower_ascii (c : ascii) : ascii :=
  let n := Ascii.nat_of_ascii c in
  if (Nat.leb 65 n && Nat.leb n 90)%bool then Ascii.ascii_of_nat (n + 32) else c.

Fixpoint lower (s : string) : string :=
  match s with
  | EmptyString => EmptyString
  | String c r => String (lower_ascii c) (lower r)
  end.

Definition upper_ascii (c : ascii) : ascii :=
  let n := Ascii.nat_of_ascii c in
  if (Nat.leb 97 n && Nat.leb n 122)%bool then Ascii.ascii_of_nat (n - 32) else c.

Fixpoint upper (s : string) : string :=
  match s with
  | EmptyString => EmptyString
  | String c r => String (upper_ascii c) (upper r)
  end.

(** [needle in hay]. *)
Fixpoint contains (needle hay : string) : bool :=
  if String.prefix needle hay then true
  else match hay with
       | EmptyString => false
       | String _ r => contains needle r
       end.

(** The ASCII blanks: tab to carriage return, the four separators
    [0x1c] to [0x1f], and the space. *)
Definition is_space (c : ascii) : bool :=
  let n := Ascii.nat_of_ascii c in
  ((Nat.leb 9 n && Nat.leb n 13) || (Nat.leb 28 n && Nat.leb n 32))%bool.

(** A continuation byte of a UTF-8 sequence ([10xxxxxx]). *)
Definition is_continuation (c : ascii) : bool :=
  let n := Ascii.nat_of_ascii c in
  (Nat.leb 128 n && Nat.ltb n 192)%bool.

(** The number of bytes of the blank character the string starts with,
    0 when it starts with none. The blanks are those of [str.isspace]:
    the ASCII ones, U+0085, U+00A0, U+1680, U+2000 to U+200A, U+2028,
    U+2029, U+202F, U+205F and U+3000, in their UTF-8 encoding. *)
Definition space_width (s : string) : nat :=
  match s with
  | EmptyString => 0
  | String c r =>
      if is_space c then 1
      else
        let n := Ascii.nat_of_ascii c in
        match r with
        | String d r' =>
            let m := Ascii.nat_of_ascii d in
            if (Nat.eqb n 194 && (Nat.eqb m 133 || Nat.eqb m 160))%bool then 2
            else
              match r' with
              | String e _ =>
                  let k := Ascii.nat_of_ascii e in
                  if ((Nat.eqb n 225 && Nat.eqb m 154 && Nat.eqb k 128)
                      || (Nat.eqb n 226 && Nat.eqb m 128
                          && ((Nat.leb 128 k && Nat.leb k 138)
                              || Nat.eqb k 168 || Nat.eqb k 169 || Nat.eqb k 175))
                      || (Nat.eqb n 226 && Nat.eqb m 129 && Nat.eqb k 159)
                      || (Nat.eqb n 227 && Nat.eqb m 128 && Nat.eqb k 128))%bool
                  then 3 else 0
              | EmptyString => 0
              end
        | EmptyString => 0
        end
  end.

(** The string without its first [n] bytes. *)
Fixpoint skip (n : nat) (s : string) : string :=
  match n, s with
  | O, _ => s
  | S m, String _ r => skip m r
  | S _, EmptyString => EmptyString
  end.

(** The words collected so far, closed by the word [cur] if there is
    one. *)
Definition flush (cur : string) : list string :=
  match cur with
  | EmptyString => []
  | _ => [cur]
  end.

Fixpoint split_go (fuel : nat) (cur : string) (s : string) : list string :=
  match fuel with
  | O => flush cur
  | S fuel' =>
      match s with
      | EmptyString => flush cur
      | String c r =>
          match space_width s with
          | O => split_go fuel' (cur +:+ String c EmptyString) r
          | width => flush cur ++ split_go fuel' EmptyString (skip width s)
          end
      end
  end.

(** [s.split()]: the maximal runs of characters that are not blanks. *)
Definition split (s : string) : list string :=
  split_go (S (String.length s)) EmptyString s.

(** [sep.join(l)]. *)
Fixpoint join (sep : string) (l : list string) : string :=
  match l with
  | [] => EmptyString
  | [x] => x
  | x :: r => x +:+ sep +:+ join sep r
  end.

Fixpoint chars_go (cur : string) (s : string) : list string :=
  match s with
  | EmptyString => flush cur
  | String c r =>
      if is_continuation c then chars_go (cur +:+ String c EmptyString) r
      else flush cur ++ chars_go (String c EmptyString) r
  end.

(** The characters of a string, each with all its bytes. *)
Definition chars (s : string) : list string := chars_go EmptyString s.

(** [s[:n]] for [n >= 0]: the first [n] characters, each with all its
    bytes. *)
Fixpoint take (n : nat) (s : string) : string :=
  match s with
  | EmptyString => EmptyString
  | String c r =>
      if is_continuation c then String c (take n r)
      else match n with
           | O => EmptyString
           | S m => String c (take m r)
           end
  end.

Fixpoint lstrip_go (fuel : nat) (s : string) : string :=
  match fuel with
  | O => s
  | S fuel' =>
      match space_width s with
      | O => s
      | width => lstrip_go fuel' (skip width s)
      end
  end.

(** [s.lstrip()]: the leading blanks removed. *)
Definition lstrip (s : string) : string := lstrip_go (String.length s) s.

(** [s.rstrip()]: the string is cut where only blanks follow. *)
Fixpoint rstrip (s : string) : string :=
  match s with
  | EmptyString => EmptyString
  | String c r =>
      if String.eqb (lstrip s) EmptyString then EmptyString
      else String c (rstrip r)
  end.

(** [s.strip()]: leading and trailing blanks removed. *)
Definition strip (s : string) : string := rstrip (lstrip s).

(** The double-quote character. *)
Definition dquote : string := String (Ascii.ascii_of_nat 34) EmptyString.

(** [any(k in s for k in ks)]. *)
Definition any_in (ks : list string) (s : string) : bool :=
  existsb (fun k => contains k s) ks.

End Str.

(** ** Python sequences *)

(** [l[:n]]: a negative bound counts from the end. *)
Definition slice_to {A} (l : list A) (n : Z) : list A :=
  if 0 <=? n then take (Z.to_nat n) l
  else take (Z.to_nat (Z.of_nat (length l) + n)) l.

(** ** Data model *)

Inductive GoalStatus := PENDING | IN_PROGRESS | COMPLETED | FAILED.

#[global] Instance GoalStatus_eq_dec : EqDecision GoalStatus.
Proof. solve_decision. Defined.

Definition GoalStatus_value (g : GoalStatus) : string :=
  match g with
  | PENDING => "pending"
  | IN_PROGRESS => "in_progress"
  | COMPLETED => "completed"
  | FAILED => "failed"
  end.

(** The values stored in result records. *)
Inductive value := VStr (s : string) | VList (l : list string).

#[global] Instance value_eq_dec : EqDecision value.
Proof. solve_decision. Defined.

(** Truthiness of a value: the empty string and the empty list are false. *)
Definition truthy (v : value) : bool :=
  match v with
  | VStr s => negb (String.eqb s EmptyString)
  | VList l => match l with [] => false | _ => true end
  end.

(** A result record, and a raw hit of the search provider (whose fields
    are all strings). *)
Abbreviation record := (gmap string value).
Abbreviation hit := (gmap string string).

(** [d.get(k, dflt)]. *)
Definition get_or {V} (d : gmap string V) (k : string) (dflt : V) : V :=
  default dflt (d !! k).

Inductive message := HumanMessage (content : string) | AIMessage (content : string).

#[global] Instance message_eq_dec : EqDecision message.
Proof. solve_decision. Defined.

Record AgentState := mkAgentState {
  goal : string;
  target_count : Z;
  current_results : list record;
  search_queries : list string;
  attempted_sources : list string;
  status : GoalStatus;
  iteration_count : Z;
  max_iterations : Z;
  messages : list message;
  last_error : option string
}.

(** Field assignments [state.f = v]. *)
Definition set_target_count (v : Z) (s : AgentState) : AgentState :=
  mkAgentState (goal s) v (current_results s) (search_queries s)
    (attempted_sources s) (status s) (iteration_count s) (max_iterations s)
    (messages s) (last_error s).

Definition set_current_results (v : list record) (s : AgentState) : AgentState :=
  mkAgentState (goal s) (target_count s) v (search_queries s)
    (attempted_sources s) (status s) (iteration_count s) (max_iterations s)
    (messages s) (last_error s).

Definition set_search_queries (v : list string) (s : AgentState) : AgentState :=
  mkAgentState (goal s) (target_count s) (current_results s) v
    (attempted_sources s) (status s) (iteration_count s) (max_iterations s)
    (messages s) (last_error s).

Definition set_attempted_sources (v : list string) (s : AgentState) : AgentState :=
  mkAgentState (goal s) (target_count s) (current_results s) (search_queries s)
    v (status s) (iteration_count s) (max_iterations s)
    (messages s) (last_error s).

Definition set_status (v : GoalStatus) (s : AgentState) : AgentState :=
  mkAgentState (goal s) (target_count s) (current_results s) (search_queries s)
    (attempted_sources s) v (iteration_count s) (max_iterations s)
    (messages s) (last_error s).

Definition set_iteration_count (v : Z) (s : AgentState) : AgentState :=
  mkAgentState (goal s) (target_count s) (current_results s) (search_queries s)
    (attempted_sources s) (status s) v (max_iterations s)
    (messages s) (last_error s).

Definition set_messages (v : list message) (s : AgentState) : AgentState :=
  mkAgentState (goal s) (target_count s) (current_results s) (search_queries s)
    (attempted_sources s) (status s) (iteration_count s) (max_iterations s)
    v (last_error s).

Definition set_last_error (v : option string) (s : AgentState) : AgentState :=
  mkAgentState (goal s) (target_count s) (current_results s) (search_queries s)
    (attempted_sources s) (status s) (iteration_count s) (max_iterations s)
    (messages s) v.

(** ** External collaborators *)

(** The three prompts sent to the language model, by the values
    formatted into their templates. *)
Inductive prompt :=
| analysis_prompt (goal : string)
| strategy_prompt (goal : string) (current_count : nat) (target_count : Z)
    (previous_queries : list string)
| refinement_prompt (goal : string) (target_count : Z) (current_count : nat)
    (tried_queries : list string).

(** What [_analyze_goal] reads from a decoded analysis: the entries
    [quantity] and [content_type] of the JSON object, [None] for an absent
    key. [AgentState.target_count] is declared [int], and [quantity] is
    taken at that type. *)
Record analysis := mkAnalysis {
  quantity : option Z;
  content_type : option string
}.

(** The services and library routines the agent calls.
    - [llm_invoke p] is [self.llm.invoke(p).content].
    - [loads_analysis] is [json.loads] on an analysis response; [None]
      when the [try] block of [_analyze_goal] raises (unparseable text, or
      a JSON value without [.get]).
    - [loads_queries] is [json.loads] on a query-list response, as the
      sequence the [for] loop iterates; [None] when the [try] block raises.
    - [ddgs_text q n] is [self.ddgs.text(q, safesearch='off',
      max_results=n)]; [inl e] when it raises with text [e].
    - [crawler_arun url] is [crawler.arun(url=url).markdown] inside
      [AsyncWebCrawler]; [inl e] when it raises.
    - [re_findall p s] is [re.findall(p, s)]; [re_search p s] is group 1 of
      [re.search(p, s)], [None] without a match. *)
Class Externals (World : Type) := mkExternals {
  llm_invoke : prompt -> World -> string * World;
  loads_analysis : string -> option analysis;
  loads_queries : string -> option (list string);
  ddgs_text : string -> Z -> World -> (string + list hit) * World;
  crawler_arun : string -> World -> (string + string) * World;
  re_findall : string -> string -> list string;
  re_search : string -> string -> option string
}.

(** ** The state monad of external calls *)

Definition M (World A : Type) : Type := World -> A * World.

Definition ret {World A} (a : A) : M World A := fun w => (a, w).

Definition bind {World A B} (m : M World A) (k : A -> M World B) : M World B :=
  fun w => let p := m w in k (fst p) (snd p).

Notation "'let*' x ':=' m 'in' k" := (bind m (fun x => k))
  (at level 10, x name, m at level 100, k at level 200).

(** A [for] loop whose body calls out: the accumulator is the part of the
    state the body updates. *)
Fixpoint foldM {World A S} (f : S -> A -> M World S) (l : list A) (s : S)
  : M World S :=
  match l with
  | [] => ret s
  | x :: r => let* s' := f s x in foldM f r s'
  end.

(** ** The agent *)

Section Agent.

Context {World : Type} `{!Externals World}.

(** [search]: a provider failure is printed and becomes the empty list. *)
Definition search (query : string) (max_results : Z) : M World (list hit) :=
  let* r := ddgs_text query max_results in
  ret (match r with
       | inr results => results
       | inl _ => []
       end).

(** [crawler]: a fetch failure is printed and becomes the empty string. *)
Definition crawler (url : string) : M World string :=
  let* r := crawler_arun url in
  ret (match r with
       | inr markdown => markdown
       | inl _ => EmptyString
       end).

Definition email_pattern : string :=
  "\b[A-Za-z0-9._%+-]+@[A-Za-z0-9.-]+\.[A-Z|a-z]{2,}\b".

(** [list(set(emails))]: the matches without repetition, in the order of
    the set's iteration (here the order of [elements]). *)
Definition _extract_emails_from_content (content : string) : list string :=
  let emails := re_findall email_pattern content in
  elements (list_to_set emails : gset string).

(** [for pattern in patterns: match = re.search(...); if match: ...; break] *)
Fixpoint first_match (patterns : list string) (content : string) : option string :=
  match patterns with
  | [] => None
  | pattern :: rest =>
      match re_search pattern content with
      | Some g => Some (Str.strip g)
      | None => first_match rest content
      end
  end.

Definition title_patterns : list string :=
  [ "(?i)<title>(.+?)\s*[-|]\s*(.+?)</title>";
    "(?i)job title:\s*(.+?)(?:\n|$)";
    "(?i)position:\s*(.+?)(?:\n|$)" ].

Definition company_patterns : list string :=
  [ "(?i)company:\s*(.+?)(?:\n|$)";
    "(?i)employer:\s*(.+?)(?:\n|$)" ].

Definition location_patterns : list string :=
  [ "(?i)location:\s*(.+?)(?:\n|$)";
    "(?i)based in:\s*(.+?)(?:\n|$)" ].

Definition set_if_found (key : string) (found : option string) (d : record) : record :=
  match found with
  | Some v => <[key := VStr v]> d
  | None => d
  end.

Definition _extract_job_info_from_content (content url : string) : record :=
  let job_info : record := ∅ in
  let job_info := set_if_found "job_title" (first_match title_patterns content) job_info in
  let job_info := set_if_found "company" (first_match company_patterns content) job_info in
  let job_info := set_if_found "location" (first_match location_patterns content) job_info in
  <["job_url" := VStr url]> job_info.

Definition _get_search_tricks (goal : string) : list string :=
  let tricks := [] in
  let tricks :=
    if Str.contains "email" (Str.lower goal)
    then tricks ++ [ "site:linkedin.com";
                     Str.dquote +:+ "@company.com" +:+ Str.dquote;
                     "contact email"; "recruiter email"; "hiring manager" ]
    else tricks in
  let tricks :=
    if Str.contains "website" (Str.lower goal)
    then tricks ++ [ "best tools 2024"; "top resources"; "list of sites"; "directory" ]
    else tricks in
  let tricks :=
    if Str.contains "job" (Str.lower goal)
    then tricks ++ [ "site:indeed.com"; "site:glassdoor.com";
                     "site:linkedin.com/jobs"; "hiring"; "careers" ]
    else tricks in
  tricks.

(** [any(keyword in title or keyword in body for keyword in keywords)] *)
Definition any_keyword (keywords : list string) (title body : string) : bool :=
  existsb (fun keyword => Str.contains keyword title || Str.contains keyword body) keywords.

Definition _is_relevant_result (result : hit) (goal : string) : bool :=
  let title := Str.lower (get_or result "title" EmptyString) in
  let body := Str.lower (get_or result "body" EmptyString) in
  let goal_lower := Str.lower goal in
  if Str.contains "email" goal_lower
  then any_keyword ["email"; "contact"; "recruiter"; "hiring"] title body
  else if Str.contains "website" goal_lower
  then any_keyword ["tool"; "platform"; "service"; "website"] title body
  else if Str.contains "job" goal_lower
  then any_keyword ["job"; "career"; "position"; "hiring"] title body
  else true.

(** The base record built from an accepted hit. *)
Definition base_result (result : hit) : record :=
  <["title" := VStr (get_or result "title" EmptyString)]>
    (<["url" := VStr (get_or result "href" EmptyString)]>
      (<["description" := VStr (get_or result "body" EmptyString)]>
        (<["source" := VStr "web_search"]> ∅))).

(** The fields extracted from a non-empty page, merged into the record. *)
Definition with_extracted (goal content url : string) (processed_result : record)
  : record :=
  if Str.any_in ["email"; "contact"; "recruiter"] (Str.lower goal)
  then
    let emails := _extract_emails_from_content content in
    match emails with
    | [] => processed_result
    | _ => <["contact_info" := VList emails]>
             (<["emails" := VList emails]> processed_result)
    end
  else if Str.any_in ["job"; "career"; "position"; "hiring"] (Str.lower goal)
  then _extract_job_info_from_content content url ∪ processed_result
  else <["content" := VStr (Str.take 500 content)]> processed_result.

(** The body of [for result in search_results], on the list [results]
    being built. The record is appended inside [if content:]. The handler
    of the inner [try] (which appends the base record) is not entered:
    [crawler] has turned every failure into the empty string, and nothing
    else in the block raises. *)
Definition process_hit (goal : string) (results : list record) (result : hit)
  : M World (list record) :=
  if _is_relevant_result result goal
  then
    let processed_result := base_result result in
    let url := get_or result "href" EmptyString in
    if String.eqb url EmptyString then ret results
    else
      let* content := crawler url in
      if String.eqb content EmptyString then ret results
      else ret (results ++ [with_extracted goal content url processed_result])
  else ret results.

Definition enhanced_queries (query goal : string) : list string :=
  let search_tricks := _get_search_tricks goal in
  query :: map (fun trick => query +:+ " " +:+ trick) (take 3 search_tricks).

(** [_perform_search]. Its outer handler (the mock results of
    [_get_fallback_results]) is not entered either: [search] and [crawler]
    do not raise, and the fields of a hit are strings. *)
Definition _perform_search (query goal : string) : M World (list record) :=
  foldM
    (fun results enhanced_query =>
       let* search_results := search enhanced_query 5 in
       foldM (process_hit goal) search_results results)
    (take 2 (enhanced_queries query goal))
    [].

(** The uniqueness test of [_execute_search]: the scan over the
    accepted records, leaving at the first collision. *)
Fixpoint is_unique (url email : value) (current : list record) : bool :=
  match current with
  | [] => true
  | existing :: rest =>
      if truthy url && bool_decide (existing !! "url" = Some url) then false
      else if truthy email && bool_decide (existing !! "email" = Some email) then false
      else is_unique url email rest
  end.

(** [for result in results: ... if is_unique: current_results.append(result)] *)
Definition add_unique (current : list record) (results : list record) : list record :=
  foldl
    (fun current result =>
       let url := get_or result "url" (VStr EmptyString) in
       let email := get_or result "email" (VStr EmptyString) in
       if is_unique url email current then current ++ [result] else current)
    current results.

(** [[q for q in search_queries if q not in attempted_sources]] *)
Definition untried (s : AgentState) : list string :=
  filter (fun q => q ∉ attempted_sources s) (search_queries s).

(** The body of [for query in queries_to_try]. The handler that stores
    [last_error] is not entered: [_perform_search] does not raise, and the
    uniqueness scan works on dictionaries. *)
Definition try_query (state : AgentState) (query : string) : M World AgentState :=
  let* results := _perform_search query (goal state) in
  let state := set_current_results (add_unique (current_results state) results) state in
  ret (set_attempted_sources (attempted_sources state ++ [query]) state).

Definition _execute_search (state : AgentState) : M World AgentState :=
  let queries_to_try := take 3 (untried state) in
  let* state := foldM try_query queries_to_try state in
  ret (set_iteration_count (iteration_count state + 1) state).

(** [for query in new_queries: if query not in search_queries: append] *)
Definition add_new_queries (search_queries new_queries : list string) : list string :=
  foldl
    (fun search_queries query =>
       if bool_decide (query ∈ search_queries) then search_queries
       else search_queries ++ [query])
    search_queries new_queries.

Definition _analyze_goal (state : AgentState) : M World AgentState :=
  let* response := llm_invoke (analysis_prompt (goal state)) in
  let state :=
    match loads_analysis response with
    | Some analysis =>
        let state := set_target_count (default 10 (quantity analysis)) state in
        set_messages
          (messages state ++
             [AIMessage ("Goal analyzed: Need " +:+ pretty (target_count state)
                           +:+ " " +:+ default "items" (content_type analysis))])
          state
    | None => set_target_count 10 state
    end in
  ret (set_status IN_PROGRESS state).

(** [state.goal.split()[0]]; it is evaluated only for a goal that
    contains the word website, whose split is not empty. *)
Definition first_word (goal : string) : string :=
  default EmptyString (head (Str.split goal)).

Definition _generate_search_strategy (state : AgentState) : M World AgentState :=
  let* response :=
    llm_invoke (strategy_prompt (goal state) (length (current_results state))
                  (target_count state) (search_queries state)) in
  ret (match loads_queries response with
       | Some new_queries =>
           set_search_queries (add_new_queries (search_queries state) new_queries) state
       | None =>
           if Str.contains "website" (Str.lower (goal state))
           then set_search_queries
                  (search_queries state ++
                     [ "best " +:+ first_word (goal state) +:+ " websites";
                       "top " +:+ first_word (goal state) +:+ " tools online";
                       "useful " +:+ first_word (goal state) +:+ " resources" ])
                  state
           else if Str.contains "email" (Str.lower (goal state))
           then set_search_queries
                  (search_queries state ++
                     [ "recruiter email contacts";
                       "HR manager email directory";
                       "talent acquisition email list" ])
                  state
           else state
       end).

Definition _validate_results (state : AgentState) : AgentState :=
  if Z.of_nat (length (current_results state)) >=? target_count state
  then set_status COMPLETED state
  else if iteration_count state >=? max_iterations state
  then set_status FAILED state
  else state.

Definition _should_continue (state : AgentState) : string :=
  match status state with
  | COMPLETED => "complete"
  | FAILED => "failed"
  | _ => "continue"
  end.

Definition _refine_strategy (state : AgentState) : M World AgentState :=
  let* response :=
    llm_invoke (refinement_prompt (goal state) (target_count state)
                  (length (current_results state)) (attempted_sources state)) in
  ret (match loads_queries response with
       | Some new_queries =>
           set_search_queries (add_new_queries (search_queries state) new_queries) state
       | None =>
           let base_terms := Str.split (goal state) in
           set_search_queries
             (foldl
                (fun search_queries term =>
                   let new_query := "best " +:+ term +:+ " resources 2024" in
                   if bool_decide (new_query ∈ search_queries) then search_queries
                   else search_queries ++ [new_query])
                (search_queries state) base_terms)
             state
       end).

End Agent.

(** ** The final report *)

Module Report.

Definition nl : string := String (Ascii.ascii_of_nat 10) EmptyString.

(** [str(v)] inside an f-string. A list prints as its [repr], rendered
    here without escapes inside the elements. *)
Definition fmt (v : value) : string :=
  match v with
  | VStr s => s
  | VList l => "[" +:+ Str.join ", " (map (fun x => "'" +:+ x +:+ "'") l) +:+ "]"
  end.

(** [', '.join(v)]: over the elements of a list, over the characters of
    a string. *)
Definition join_value (v : value) : string :=
  match v with
  | VList l => Str.join ", " l
  | VStr s => Str.join ", " (Str.chars s)
  end.

(** [if result.get(key): final_message += line(result.get(key))] *)
Definition line_if (result : record) (key : string) (line : value -> string) : string :=
  match result !! key with
  | Some v => if truthy v then line v else EmptyString
  | None => EmptyString
  end.

(** [key in result and result[key]] *)
Definition has_truthy (result : record) (key : string) : bool :=
  match result !! key with
  | Some v => truthy v
  | None => false
  end.

(** The lines of the report for the [i]-th result. *)
Definition entry (i : nat) (result : record) : string :=
  if has_truthy result "url" then
    pretty i +:+ ". " +:+ fmt (get_or result "title" (VStr "No title")) +:+ " - "
      +:+ fmt (get_or result "url" (VStr "None")) +:+ nl
      +:+ line_if result "description" (fun v => "   Description: " +:+ fmt v +:+ nl)
      +:+ line_if result "emails" (fun v => "   Emails: " +:+ join_value v +:+ nl)
  else if has_truthy result "email" then
    pretty i +:+ ". " +:+ fmt (get_or result "name" (VStr "Unknown")) +:+ " - "
      +:+ fmt (get_or result "email" (VStr "None")) +:+ " ("
      +:+ fmt (get_or result "company" (VStr "Unknown Company")) +:+ ")" +:+ nl
      +:+ line_if result "role" (fun v => "   Role: " +:+ fmt v +:+ nl)
  else if bool_decide (is_Some (result !! "contact_info")) then
    pretty i +:+ ". Contact Information: "
      +:+ join_value (get_or result "contact_info" (VList [])) +:+ nl
  else
    pretty i +:+ ". " +:+ fmt (get_or result "title" (VStr "No title")) +:+ nl
      +:+ line_if result "description" (fun v => "   " +:+ fmt v +:+ nl).

(** [for i, result in enumerate(results, 1)] *)
Fixpoint entries (i : nat) (results : list record) : string :=
  match results with
  | [] => EmptyString
  | result :: rest => entry i result +:+ entries (S i) rest
  end.

Definition header (state : AgentState) : string :=
  nl +:+ "🎯 Goal: " +:+ goal state +:+ nl
     +:+ "✅ Status: " +:+ Str.upper (GoalStatus_value (status state)) +:+ nl
     +:+ "📊 Results: " +:+ pretty (length (current_results state)) +:+ "/"
     +:+ pretty (target_count state) +:+ nl
     +:+ "🔄 Iterations: " +:+ pretty (iteration_count state) +:+ nl
     +:+ nl +:+ "Results:" +:+ nl.

Definition final_message (state : AgentState) : string :=
  header state +:+ entries 1 (current_results state).

End Report.

Definition _finalize_results (state : AgentState) : AgentState :=
  let state :=
    set_current_results (slice_to (current_results state) (target_count state)) state in
  set_messages (messages state ++ [AIMessage (Report.final_message state)]) state.

(** ** The graph of [_build_graph] and the driver *)

Inductive node :=
| analyze_goal
| generate_search_strategy
| execute_search
| validate_results
| refine_strategy
| finalize_results
| END.

#[global] Instance node_eq_dec : EqDecision node.
Proof. solve_decision. Defined.

(** The edges; after [validate_results] the target is chosen by
    [_should_continue] through the mapping of [add_conditional_edges]. *)
Definition next_node (n : node) (state : AgentState) : node :=
  match n with
  | analyze_goal => generate_search_strategy
  | generate_search_strategy => execute_search
  | execute_search => validate_results
  | validate_results =>
      let route := _should_continue state in
      if String.eqb route "continue" then refine_strategy
      else if String.eqb route "complete" then finalize_results
      else END
  | refine_strategy => execute_search
  | finalize_results => END
  | END => END
  end.

Section Graph.

Context {World : Type} `{!Externals World}.

Definition run_node (n : node) (state : AgentState) : M World AgentState :=
  match n with
  | analyze_goal => _analyze_goal state
  | generate_search_strategy => _generate_search_strategy state
  | execute_search => _execute_search state
  | validate_results => ret (_validate_results state)
  | refine_strategy => _refine_strategy state
  | finalize_results => ret (_finalize_results state)
  | END => ret state
  end.

(** Running the graph from node [n]: the nodes executed, in order, and
    the state that reaches [END]. [steps] is the number of node
    executions the graph runtime allows; [None] when it is used up before
    [END]. *)
Fixpoint graph_run (steps : nat) (n : node) (state : AgentState)
  : M World (option (list node * AgentState)) :=
  match n with
  | END => ret (Some ([], state))
  | _ =>
      match steps with
      | O => ret None
      | S steps' =>
          let* state' := run_node n state in
          let* rest := graph_run steps' (next_node n state') state' in
          ret (match rest with
               | Some (trace, final) => Some (n :: trace, final)
               | None => None
               end)
      end
  end.

Definition initial_state (goal : string) (max_iterations : Z) : AgentState :=
  mkAgentState goal 10 [] [] [] PENDING 0 max_iterations [HumanMessage goal] None.

(** [run_agent]: the graph is entered at [analyze_goal] with the initial
    state; the state of the last node executed is returned. *)
Definition run_agent (steps : nat) (goal : string) (max_iterations : Z)
  : M World (option (list node * AgentState)) :=
  graph_run steps analyze_goal (initial_state goal max_iterations).

End Graph.

(** The number of search rounds in a trace. *)
Definition rounds (trace : list node) : nat :=
  length (filter (fun n => n = execute_search) trace).

Definition terminal (g : GoalStatus) : Prop := g = COMPLETED \/ g = FAILED.

(** ** Notions used in the statements *)

(** The fields a search round and the validation read but do not write. *)
Definition control_eq (s s' : AgentState) : Prop :=
  goal s' = goal s /\ target_count s' = target_count s /\
  search_queries s' = search_queries s /\ status s' = status s /\
  max_iterations s' = max_iterations s /\ messages s' = messages s /\
  last_error s' = last_error s.

(** The provider raises on [q], whatever the page size and the moment. *)
Definition search_raises {World : Type} `{!Externals World} (q : string) : Prop :=
  forall (n : Z) (w : World), exists e, (ddgs_text q n w).1 = inl e.

(** The entries of [l], each once, in the order of their first
    appearance. *)
Fixpoint first_appearances (l : list string) : list string :=
  match l with
  | [] => []
  | x :: r => x :: filter (fun y => y <> x) (first_appearances r)
  end.

(** Merging proposed queries into a ledger with duplicate suppression:
    the ledger as it was, followed by the proposed queries that are not in
    it, each once, in the order of their first appearance. *)
Definition merge_suppressing (ledger new : list string) : list string :=
  ledger ++ first_appearances (filter (fun q => q ∉ ledger) new).

(** The templated queries of the two fallbacks, as functions of the goal
    alone. *)
Definition initial_templates (goal : string) : list string :=
  if Str.contains "website" (Str.lower goal)
  then [ "best " +:+ first_word goal +:+ " websites";
         "top " +:+ first_word goal +:+ " tools online";
         "useful " +:+ first_word goal +:+ " resources" ]
  else if Str.contains "email" (Str.lower goal)
  then [ "recruiter email contacts";
         "HR manager email directory";
         "talent acquisition email list" ]
  else [].

Definition refinement_templates (goal : string) : list string :=
  map (fun term => "best " +:+ term +:+ " resources 2024") (Str.split goal).

(** No two accepted records have the same non-empty [url]. *)
Definition urls_unique (l : list record) : Prop :=
  forall (i j : nat) (r1 r2 : record) (u : value),
    l !! i = Some r1 -> l !! j = Some r2 -> i <> j ->
    r1 !! "url" = Some u -> r2 !! "url" = Some u -> truthy u = false.

(** ** Concrete collaborators used in the examples *)

Module Scenario.

(** Nothing outside answers: the model's text does not parse, the search
    provider and the crawler raise. *)
Definition offline : Externals unit :=
  mkExternals unit
    (fun _ w => (EmptyString, w))
    (fun _ => None)
    (fun _ => None)
    (fun _ _ w => (inl "connection refused", w))
    (fun _ w => (inl "timeout", w))
    (fun _ _ => [])
    (fun _ _ => None).

Definition mk_hit (title href body : string) : hit :=
  <["title" := title]> (<["href" := href]> (<["body" := body]> ∅)).

(** A run in its first round with one query to try. *)
Definition one_query : AgentState :=
  mkAgentState "Find email contacts" 10 [] ["recruiter email contacts"] []
    IN_PROGRESS 0 5 [HumanMessage "Find email contacts"] None.

End Scenario.

Module DecisionExamples.

Definition rec_of (url : string) : record := <["url" := VStr url]> ∅.

(** Two results, target 2, ceiling reached as well: COMPLETED wins. *)
Definition enough : AgentState :=
  mkAgentState "g" 2 [rec_of "a"; rec_of "b"] [] [] IN_PROGRESS 5 5 [] None.

(** One result, target 2, ceiling reached. *)
Definition exhausted : AgentState :=
  mkAgentState "g" 2 [rec_of "a"] [] [] IN_PROGRESS 5 5 [] None.

(** One result, target 2, rounds left. *)
Definition underway : AgentState :=
  mkAgentState "g" 2 [rec_of "a"] [] [] IN_PROGRESS 1 5 [] None.

End DecisionExamples.

Module ZeroTarget.

(** The model answers with a quantity of 0; nothing else answers. *)
Definition env : Externals unit :=
  mkExternals unit
    (fun _ w => ("{}", w))
    (fun _ => Some (mkAnalysis (Some 0) None))
    (fun _ => None)
    (fun _ _ w => (inl "connection refused", w))
    (fun _ w => (inl "timeout", w))
    (fun _ _ => [])
    (fun _ _ => None).

End ZeroTarget.

Module TwelveFound.

Definition found (i : nat) : record :=
  <["url" := VStr ("https://example.org/" +:+ pretty i)]>
    (<["emails" := VList ["user" +:+ pretty i +:+ "@example.org"]]> ∅).

(** The state after a round that brought the results to 12, target 10. *)
Definition after_round : AgentState :=
  mkAgentState "Find 10 email addresses of recruiters" 10
    (map found (seq 0 12)) ["q1"; "q2"] ["q1"; "q2"] IN_PROGRESS 1 5
    [HumanMessage "Find 10 email addresses of recruiters"] None.

(** A state at the ceiling with 3 of 10 results. *)
Definition short : AgentState :=
  mkAgentState "Find 10 email addresses of recruiters" 10
    (map found (seq 0 3)) ["q1"] ["q1"] IN_PROGRESS 5 5
    [HumanMessage "Find 10 email addresses of recruiters"] None.

End TwelveFound.

Module Overfull.

(** [TwelveFound.after_round] once validated: COMPLETED, 12 results for
    a target of 10. *)
Definition validated : AgentState := _validate_results TwelveFound.after_round.

End Overfull.

Module FetchDown.

(** The provider finds one page for the query; [page] is what fetching
    it gives. *)
Definition the_hit : hit :=
  Scenario.mk_hit "Useful tool" "https://tools.example" "A platform for developers".

Definition env (page : string + string) : Externals unit :=
  mkExternals unit
    (fun _ w => (EmptyString, w))
    (fun _ => None)
    (fun _ => None)
    (fun q _ w => (inr (if String.eqb q "developer tools" then [the_hit] else []), w))
    (fun _ w => (page, w))
    (fun _ _ => [])
    (fun _ _ => None).

Definition the_goal : string := "Find 5 developer tools".

Definition start : AgentState :=
  mkAgentState the_goal 5 [] ["developer tools"] [] IN_PROGRESS 0 5
    [HumanMessage the_goal] None.

End FetchDown.

Module SharedAddress.

(** Two pages with different addresses on the web, both carrying the
    same e-mail address. *)
Definition hit1 : hit :=
  Scenario.mk_hit "Recruiter contact page" "https://a.example/team" "We are hiring".

Definition hit2 : hit :=
  Scenario.mk_hit "Contact our recruiter" "https://b.example/about" "Open roles".

Definition page1 : string := "Contact: jane@corp.example".
Definition page2 : string := "Write to jane@corp.example".

Definition env : Externals unit :=
  mkExternals unit
    (fun _ w => (EmptyString, w))
    (fun _ => None)
    (fun _ => None)
    (fun q _ w =>
       (inr (if String.eqb q "recruiter contacts" then [hit1; hit2] else []), w))
    (fun url w =>
       (inr (if String.eqb url "https://a.example/team" then page1 else page2), w))
    (fun _ content =>
       if (String.eqb content page1 || String.eqb content page2)%bool
       then ["jane@corp.example"] else [])
    (fun _ _ => None).

Definition the_goal : string := "Find email addresses of recruiters".

Definition start : AgentState :=
  mkAgentState the_goal 10 [] ["recruiter contacts"] [] IN_PROGRESS 0 5
    [HumanMessage the_goal] None.

Definition with_address (h : hit) : record :=
  <["contact_info" := VList ["jane@corp.example"]]>
    (<["emails" := VList ["jane@corp.example"]]> (base_result h)).

End SharedAddress.

Module ParsedPlan.

(** The model proposes three queries, one of them twice and one already
    in the ledger of [StaleLedger.start]; nothing else answers. *)
Definition proposed : list string :=
  ["recruiter email contacts"; "HR contacts"; "HR contacts"].

Definition env : Externals unit :=
  mkExternals unit
    (fun _ w => ("[...]", w))
    (fun _ => None)
    (fun _ => Some proposed)
    (fun _ _ w => (inl "connection refused", w))
    (fun _ w => (inl "timeout", w))
    (fun _ _ => [])
    (fun _ _ => None).

End ParsedPlan.

Module StaleLedger.

(** A state whose ledger already holds the first fallback query. *)
Definition start : AgentState :=
  mkAgentState "Find email contacts" 10 [] ["recruiter email contacts"] []
    IN_PROGRESS 0 5 [HumanMessage "Find email contacts"] None.

End StaleLedger.

(** ** The mock results *)

(** A dictionary literal whose values are strings. *)
Definition str_record (fields : list (string * string)) : record :=
  list_to_map (map (fun kv => (kv.1, VStr kv.2)) fields).

(** [_get_fallback_results]: the records [_perform_search] would extend
    its results with from its outer handler. *)
Definition _get_fallback_results (goal : string) : list record :=
  if (Str.contains "website" (Str.lower goal)
      && Str.contains "digital marketing" (Str.lower goal))%bool
  then
    [ str_record [("title", "HubSpot Marketing Hub"); ("url", "https://hubspot.com");
                  ("description", "All-in-one marketing platform")];
      str_record [("title", "Moz SEO Tools"); ("url", "https://moz.com");
                  ("description", "SEO and marketing analytics")];
      str_record [("title", "SEMrush"); ("url", "https://semrush.com");
                  ("description", "Digital marketing toolkit")] ]
  else if (Str.contains "email" (Str.lower goal)
           && Str.contains "recruiter" (Str.lower goal))%bool
  then
    [ str_record [("name", "Sarah Johnson"); ("email", "sarah.johnson@techcorp.com");
                  ("company", "TechCorp"); ("role", "Senior Recruiter")];
      str_record [("name", "Mike Davis"); ("email", "mike.davis@startup.io");
                  ("company", "StartupIO"); ("role", "Talent Acquisition Manager")] ]
  else if Str.contains "job" (Str.lower goal)
  then
    [ str_record [("title", "Senior Software Engineer"); ("company", "TechCorp");
                  ("url", "https://jobs.techcorp.com/123"); ("location", "Remote")];
      str_record [("title", "Data Scientist"); ("company", "DataCorp");
                  ("url", "https://careers.datacorp.com/456"); ("location", "New York")] ]
  else [].

(** ** Further notions used in the statements *)

(** The record [existing] stops a candidate with address [url] and
    [email]: one iteration of the scan of [is_unique]. *)
Definition collides (url email : value) (existing : record) : bool :=
  (truthy url && bool_decide (existing !! "url" = Some url))
  || (truthy email && bool_decide (existing !! "email" = Some email)).

(** The record has something the uniqueness test can compare: a
    non-empty [url] or a non-empty [email]. *)
Definition keyed (r : record) : Prop :=
  truthy (get_or r "url" (VStr EmptyString)) = true \/
  truthy (get_or r "email" (VStr EmptyString)) = true.

(** The record has a non-empty string under [url]. *)
Definition has_url (r : record) : Prop :=
  exists u, r !! "url" = Some (VStr u) /\ u <> EmptyString.

(** What every record built from a hit carries: a non-empty address,
    the source tag, a title and a description. *)
Definition from_hit (r : record) : Prop :=
  has_url r /\ r !! "source" = Some (VStr "web_search") /\
  is_Some (r !! "title") /\ is_Some (r !! "description").

(** The keys the content extractor may write. *)
Definition extracted_keys : list string :=
  ["emails"; "contact_info"; "job_title"; "company"; "location"; "job_url";
   "content"].



(** The number of refinement steps in a trace. *)
Definition refinements (trace : list node) : nat :=
  length (filter (fun n => n = refine_strategy) trace).

(** The provider returns at most as many hits as it is asked for. *)
Definition respects_page_size {World : Type} `{!Externals World} : Prop :=
  forall (q : string) (n : Z) (w : World) (hits : list hit),
    0 <= n -> (ddgs_text q n w).1 = inr hits -> Z.of_nat (length hits) <= n.

(** How a run can end: COMPLETED with the target met (and, for a target
    that is not negative, exactly [target_count] results), or FAILED below
    the target with the iterations used up. *)
Definition run_outcome (sf : AgentState) : Prop :=
  (status sf = COMPLETED /\
   (0 <= target_count sf ->
    Z.of_nat (length (current_results sf)) = target_count sf)) \/
  (status sf = FAILED /\
   Z.of_nat (length (current_results sf)) < target_count sf /\
   iteration_count sf >= max_iterations sf).

(** The ledger of a state is in order: no query twice in the ledger, none
    twice among the attempted, and every attempted query is in the
    ledger. *)
Definition ledger_ok (s : AgentState) : Prop :=
  NoDup (search_queries s) /\ NoDup (attempted_sources s) /\
  attempted_sources s ⊆ search_queries s.

(** A hit with its title and body in lower case. *)
Definition lower_hit (h : hit) : hit :=
  <["title" := Str.lower (get_or h "title" EmptyString)]>
    (<["body" := Str.lower (get_or h "body" EmptyString)]> h).

Module PagedSearch.

(** The provider returns the same two pages for every search and
    respects the page size; every page has text. *)
Definition hitA : hit :=
  Scenario.mk_hit "Tool A" "https://a.example" "A platform".

Definition hitB : hit :=
  Scenario.mk_hit "Tool B" "https://b.example" "A service".

Definition env : Externals unit :=
  mkExternals unit
    (fun _ w => (EmptyString, w))
    (fun _ => None)
    (fun _ => None)
    (fun _ n w => (inr (take (Z.to_nat n) [hitA; hitB]), w))
    (fun _ w => (inr "Some text", w))
    (fun _ _ => [])
    (fun _ _ => None).

Definition start : AgentState :=
  mkAgentState "Find 5 developer tools" 5 [] ["developer tools"; "dev utilities"] []
    IN_PROGRESS 0 5 [HumanMessage "Find 5 developer tools"] None.

End PagedSearch.

Module Mailbox.

(** A page that names one address twice, and a job page with two labelled
    lines, the first ending in a space and a no-break space; the pattern
    matcher answers for these two pages. *)
Definition page : string := "Contact: a@b.com and a@b.com".

Definition nbsp : string :=
  String (Ascii.ascii_of_nat 194) (String (Ascii.ascii_of_nat 160) EmptyString).

Definition job_page : string :=
  "Position: Engineer " +:+ nbsp +:+ Report.nl +:+ "Company: Acme".

Definition env : Externals unit :=
  mkExternals unit
    (fun _ w => (EmptyString, w))
    (fun _ => None)
    (fun _ => None)
    (fun _ _ w => (inr [], w))
    (fun _ w => (inr page, w))
    (fun _ content =>
       if String.eqb content page then ["a@b.com"; "a@b.com"] else [])
    (fun pattern content =>
       if String.eqb content job_page
       then if String.eqb pattern "(?i)position:\s*(.+?)(?:\n|$)"
            then Some ("Engineer " +:+ nbsp)
            else if String.eqb pattern "(?i)company:\s*(.+?)(?:\n|$)"
            then Some "Acme"
            else None
       else None).

(** A hit that gives no address. *)
Definition no_address : hit :=
  <["title" := "Recruiter contacts"]> (<["body" := "email list"]> ∅).

(** The provider answers every search with that hit and with one that
    fails the relevance filter of an email goal. *)
Definition off_topic : hit :=
  Scenario.mk_hit "Weather today" "https://w.example" "Sunny".

Definition env_unusable : Externals unit :=
  mkExternals unit
    (fun _ w => (EmptyString, w))
    (fun _ => None)
    (fun _ => None)
    (fun _ _ w => (inr [no_address; off_topic], w))
    (fun _ w => (inr page, w))
    (fun _ _ => ["a@b.com"])
    (fun _ _ => None).

Definition email_round : AgentState :=
  mkAgentState "Find email contacts" 10 [] ["recruiter email contacts"] []
    IN_PROGRESS 0 5 [HumanMessage "Find email contacts"] None.

(** A state finalized with a negative target. *)
Definition negative_target : AgentState :=
  mkAgentState "Find tools" (-2) (map TwelveFound.found (seq 0 5)) [] []
    COMPLETED 1 5 [] None.

End Mailbox.

(** * Properties *)

(** ** Frame lemmas *)

#[global] Instance control_eq_refl : Reflexive control_eq.
Proof. intros s. repeat split. Qed.

#[global] Instance control_eq_trans : Transitive control_eq.
Proof.
  intros a b c (?&?&?&?&?&?&?) (?&?&?&?&?&?&?).
  repeat split; congruence.
Qed.

Lemma foldM_rel {World A S} (R : S -> S -> Prop)
    (f : S -> A -> M World S) (l : list A) :
  (forall s, R s s) ->
  (forall a b c, R a b -> R b c -> R a c) ->
  (forall s x w, R s (f s x w).1) ->
  forall s w, R s (foldM f l s w).1.
Proof.
  intros Hr Ht Hf. induction l as [|x l IH]; intros s w; simpl.
  - apply Hr.
  - unfold bind. apply Ht with (f s x w).1; [apply Hf | apply IH].
Qed.

Lemma validate_status_cases (s : AgentState) :
  status (_validate_results s) = COMPLETED \/
  status (_validate_results s) = FAILED \/
  (_validate_results s = s /\
   Z.of_nat (length (current_results s)) < target_count s /\
   iteration_count s < max_iterations s).
Proof.
  unfold _validate_results.
  destruct (Z.geb_spec (Z.of_nat (length (current_results s))) (target_count s));
    [left; reflexivity|].
  destruct (Z.geb_spec (iteration_count s) (max_iterations s));
    [right; left; reflexivity|].
  right; right. repeat split; lia.
Qed.

Lemma validate_frame (s : AgentState) :
  current_results (_validate_results s) = current_results s /\
  search_queries (_validate_results s) = search_queries s /\
  attempted_sources (_validate_results s) = attempted_sources s /\
  iteration_count (_validate_results s) = iteration_count s /\
  max_iterations (_validate_results s) = max_iterations s /\
  target_count (_validate_results s) = target_count s /\
  messages (_validate_results s) = messages s.
Proof.
  unfold _validate_results.
  destruct (_ >=? _); [repeat split|].
  destruct (_ >=? _); repeat split.
Qed.

Section RoundFrame.

Context {World : Type} `{!Externals World}.

Lemma try_query_control (s : AgentState) (q : string) (w : World) :
  control_eq s (try_query s q w).1.
Proof. repeat split. Qed.

Lemma try_query_iteration (s : AgentState) (q : string) (w : World) :
  iteration_count (try_query s q w).1 = iteration_count s.
Proof. reflexivity. Qed.

Lemma execute_control (s : AgentState) (w : World) :
  control_eq s (_execute_search s w).1.
Proof.
  unfold _execute_search, bind; simpl.
  pose proof (foldM_rel control_eq try_query (take 3 (untried s))
                control_eq_refl control_eq_trans
                try_query_control s w) as (?&?&?&?&?&?&?).
  repeat split; assumption.
Qed.

(** A round adds exactly one to [iteration_count], whatever the queries
    did. *)
Lemma execute_iteration (s : AgentState) (w : World) :
  iteration_count (_execute_search s w).1 = iteration_count s + 1.
Proof.
  unfold _execute_search, bind; simpl. f_equal.
  apply (foldM_rel (fun a b => iteration_count b = iteration_count a)).
  - intros a; reflexivity.
  - intros a b c; congruence.
  - intros; apply try_query_iteration.
Qed.

Lemma analyze_frame (s : AgentState) (w : World) :
  let s' := (_analyze_goal s w).1 in
  goal s' = goal s /\ current_results s' = current_results s /\
  search_queries s' = search_queries s /\
  attempted_sources s' = attempted_sources s /\
  iteration_count s' = iteration_count s /\
  max_iterations s' = max_iterations s /\ status s' = IN_PROGRESS.
Proof.
  unfold _analyze_goal, bind; simpl.
  destruct (loads_analysis _); repeat split.
Qed.

Lemma generate_frame (s : AgentState) (w : World) :
  let s' := (_generate_search_strategy s w).1 in
  goal s' = goal s /\ target_count s' = target_count s /\
  current_results s' = current_results s /\ status s' = status s /\
  iteration_count s' = iteration_count s /\
  max_iterations s' = max_iterations s /\ messages s' = messages s.
Proof.
  unfold _generate_search_strategy, bind; simpl.
  destruct (loads_queries _); [repeat split|].
  destruct (Str.contains "website" _); [repeat split|].
  destruct (Str.contains "email" _); repeat split.
Qed.

Lemma refine_frame (s : AgentState) (w : World) :
  let s' := (_refine_strategy s w).1 in
  goal s' = goal s /\ target_count s' = target_count s /\
  current_results s' = current_results s /\ status s' = status s /\
  iteration_count s' = iteration_count s /\
  max_iterations s' = max_iterations s /\ messages s' = messages s.
Proof.
  unfold _refine_strategy, bind; simpl.
  destruct (loads_queries _); repeat split.
Qed.

End RoundFrame.

(** ** Running the graph *)

Lemma rounds_execute (trace : list node) :
  rounds (execute_search :: trace) = S (rounds trace).
Proof. reflexivity. Qed.

Lemma rounds_other (n : node) (trace : list node) :
  n <> execute_search -> rounds (n :: trace) = rounds trace.
Proof.
  intros Hn. unfold rounds. rewrite filter_cons.
  destruct (decide (n = execute_search)); [contradiction | reflexivity].
Qed.

Lemma next_after_validate (s : AgentState) :
  next_node validate_results s =
    match status s with
    | COMPLETED => finalize_results
    | FAILED => END
    | _ => refine_strategy
    end.
Proof. unfold next_node, _should_continue. destruct (status s); reflexivity. Qed.

Lemma finalize_frame (s : AgentState) :
  status (_finalize_results s) = status s /\
  search_queries (_finalize_results s) = search_queries s /\
  attempted_sources (_finalize_results s) = attempted_sources s /\
  iteration_count (_finalize_results s) = iteration_count s /\
  max_iterations (_finalize_results s) = max_iterations s /\
  target_count (_finalize_results s) = target_count s /\
  current_results (_finalize_results s) =
    slice_to (current_results s) (target_count s).
Proof. repeat split. Qed.

Section GraphFacts.

Context {World : Type} `{!Externals World}.

Lemma graph_run_END (steps : nat) (s : AgentState) (w : World) :
  graph_run steps END s w = (Some ([], s), w).
Proof. destruct steps; reflexivity. Qed.

Lemma graph_run_step (steps : nat) (n : node) (s : AgentState) (w : World) :
  n <> END ->
  graph_run (S steps) n s w =
    let p := run_node n s w in
    let r := graph_run steps (next_node n p.1) p.1 p.2 in
    (match r.1 with
     | Some (trace, final) => Some (n :: trace, final)
     | None => None
     end, r.2).
Proof. destruct n; try congruence; reflexivity. Qed.

(** From [validate_results] with a state that validates to COMPLETED,
    the graph runs finalization and ends. *)
Lemma graph_run_completed (steps : nat) (s : AgentState) (w : World) :
  status (_validate_results s) = COMPLETED ->
  graph_run (S (S steps)) validate_results s w =
    (Some ([validate_results; finalize_results],
           _finalize_results (_validate_results s)), w).
Proof.
  intros Hs. rewrite graph_run_step by discriminate. cbv zeta.
  change (run_node validate_results s w) with (_validate_results s, w).
  cbn [fst snd]. rewrite next_after_validate, Hs.
  rewrite graph_run_step by discriminate. cbv zeta.
  change (run_node finalize_results (_validate_results s) w)
    with (_finalize_results (_validate_results s), w).
  cbn [fst snd]. change (next_node finalize_results _) with END.
  rewrite graph_run_END. reflexivity.
Qed.

(** From [validate_results] with a state that validates to FAILED, the
    graph ends at once. *)
Lemma graph_run_failed (steps : nat) (s : AgentState) (w : World) :
  status (_validate_results s) = FAILED ->
  graph_run (S steps) validate_results s w =
    (Some ([validate_results], _validate_results s), w).
Proof.
  intros Hs. rewrite graph_run_step by discriminate. cbv zeta.
  change (run_node validate_results s w) with (_validate_results s, w).
  cbn [fst snd]. rewrite next_after_validate, Hs.
  rewrite graph_run_END. reflexivity.
Qed.

(** Otherwise the graph refines the strategy and starts another round. *)
Lemma graph_run_continue (steps : nat) (s : AgentState) (w : World) :
  status (_validate_results s) <> COMPLETED ->
  status (_validate_results s) <> FAILED ->
  graph_run (S (S steps)) validate_results s w =
    let p := _refine_strategy (_validate_results s) w in
    let r := graph_run steps execute_search p.1 p.2 in
    (match r.1 with
     | Some (trace, final) =>
         Some (validate_results :: refine_strategy :: trace, final)
     | None => None
     end, r.2).
Proof.
  intros Hc Hf. rewrite graph_run_step by discriminate. cbv zeta.
  change (run_node validate_results s w) with (_validate_results s, w).
  cbn [fst snd]. rewrite next_after_validate.
  assert (Hn : match status (_validate_results s) with
               | COMPLETED => finalize_results
               | FAILED => END
               | _ => refine_strategy
               end = refine_strategy)
    by (destruct (status (_validate_results s)); congruence).
  rewrite Hn. rewrite graph_run_step by discriminate. cbv zeta.
  change (run_node refine_strategy (_validate_results s) w)
    with (_refine_strategy (_validate_results s) w).
  change (next_node refine_strategy _) with execute_search.
  destruct (graph_run steps execute_search _ _) as [[[tr sf]|] w']; reflexivity.
Qed.

(** The loop of rounds, entered at [execute_search] with at most [S m]
    iterations left: it reaches [END] in a terminal status after at most
    [S m] rounds, and [iteration_count] has counted them. *)
Lemma rounds_from_execute (m : nat) :
  forall (steps : nat) (s : AgentState) (w : World),
    max_iterations s - iteration_count s <= Z.of_nat (S m) ->
    (3 * S m <= steps)%nat ->
    exists tr sf w',
      graph_run steps execute_search s w = (Some (tr, sf), w') /\
      terminal (status sf) /\
      (1 <= rounds tr <= S m)%nat /\
      iteration_count sf = iteration_count s + Z.of_nat (rounds tr) /\
      max_iterations sf = max_iterations s.
Proof.
  induction m as [|m IH]; intros steps s w Hleft Hsteps.
  all: destruct steps as [|[|[|steps]]]; try lia.
  all: rewrite graph_run_step by discriminate; cbv zeta.
  all: change (run_node execute_search s w) with (_execute_search s w).
  all: change (next_node execute_search _) with validate_results.
  all: pose proof (execute_iteration s w) as Hit.
  all: pose proof (execute_control s w) as (_&_&_&_&Hmax&_&_).
  all: destruct (_execute_search s w) as [s1 w1]; cbn [fst snd] in *.
  all: pose proof (validate_frame s1) as (_&_&_&Hvit&Hvmax&_&_).
  all: destruct (decide (status (_validate_results s1) = COMPLETED)) as [Hc|Hc].
  1,3: rewrite graph_run_completed by assumption; cbn [fst snd];
       eexists _, _, _; split; [reflexivity|];
       pose proof (finalize_frame (_validate_results s1)) as (Hfs&_&_&Hfi&Hfm&_&_);
       rewrite Hfs, Hfi, Hfm, Hc, Hvit, Hvmax, Hit, Hmax;
       change (rounds _) with 1%nat;
       repeat split; [left; reflexivity | lia .. ].
  all: destruct (decide (status (_validate_results s1) = FAILED)) as [Hf|Hf].
  1,3: rewrite graph_run_failed by assumption; cbn [fst snd];
       eexists _, _, _; split; [reflexivity|];
       rewrite Hf, Hvit, Hvmax, Hit, Hmax;
       change (rounds _) with 1%nat;
       repeat split; [right; reflexivity | lia .. ].
  all: destruct (validate_status_cases s1) as [?|[?|(Hid&_&Hlt)]]; try contradiction.
  - lia.
  - rewrite graph_run_continue by assumption. cbv zeta.
    rewrite Hid in *.
    pose proof (refine_frame s1 w1) as (_&_&_&_&Hri&Hrm&_).
    destruct (_refine_strategy s1 w1) as [s3 w3]; cbn [fst snd] in *.
    destruct (IH steps s3 w3) as (tr&sf&w'&Hrun&Hterm&Hr&Hi&Hm); [lia.. |].
    rewrite Hrun; cbn [fst snd].
    eexists _, _, _; split; [reflexivity|].
    rewrite rounds_execute, !rounds_other by discriminate.
    repeat split; [assumption | lia .. ].
Qed.

End GraphFacts.

(** ** Termination of the loop of rounds *)

Section Termination.

Context {World : Type} `{!Externals World}.

Lemma validate_at_ceiling (s : AgentState) :
  iteration_count s >= max_iterations s ->
  terminal (status (_validate_results s)).
Proof.
  intros Hge. destruct (validate_status_cases s) as [?|[?|(_&_&?)]].
  - left; assumption.
  - right; assumption.
  - lia.
Qed.

(** A run allowed [3 * K + 2] node executions reaches [END] in a
    terminal status, and [iteration_count] is the number of rounds. *)
Lemma run_reaches_end (g : string) (K : Z) (steps : nat) (w : World) :
  0 < K ->
  (3 * Z.to_nat K + 2 <= steps)%nat ->
  exists tr sf w',
    run_agent steps g K w = (Some (tr, sf), w') /\
    terminal (status sf) /\
    1 <= Z.of_nat (rounds tr) <= K /\
    iteration_count sf = Z.of_nat (rounds tr).
Proof.
  intros HK Hsteps.
  unfold run_agent.
  destruct steps as [|[|steps]]; try lia.
  rewrite graph_run_step by discriminate; cbv zeta.
  change (run_node analyze_goal ?s ?w) with (_analyze_goal s w).
  change (next_node analyze_goal _) with generate_search_strategy.
  pose proof (analyze_frame (initial_state g K) w) as (_&_&_&_&Hai&Ham&_).
  destruct (_analyze_goal (initial_state g K) w) as [s1 w1]; cbn [fst snd] in *.
  rewrite graph_run_step by discriminate; cbv zeta.
  change (run_node generate_search_strategy ?s ?w)
    with (_generate_search_strategy s w).
  change (next_node generate_search_strategy _) with execute_search.
  pose proof (generate_frame s1 w1) as (_&_&_&_&Hgi&Hgm&_).
  destruct (_generate_search_strategy s1 w1) as [s2 w2]; cbn [fst snd] in *.
  simpl in Hai, Ham.
  destruct (rounds_from_execute (Z.to_nat K - 1) steps s2 w2)
    as (tr&sf&w'&Hrun&Hterm&Hr&Hi&_); [lia .. |].
  rewrite Hrun; cbn [fst snd].
  eexists _, _, _; split; [reflexivity|].
  rewrite !rounds_other by discriminate.
  repeat split; [assumption | lia .. ].
Qed.

(** C1. For every goal and every positive [max_iterations = K], a run
    whose graph runtime allows [3 * K + 2] node executions reaches [END]:
    every round adds exactly 1 to [iteration_count], validation makes the
    status COMPLETED or FAILED as soon as [iteration_count >=
    max_iterations], and so the run performs at most [K] rounds and ends
    with a status in {COMPLETED, FAILED}. *)
Theorem run_terminates_within_max_iterations
    (g : string) (K : Z) (steps : nat) (w : World) :
  0 < K ->
  (3 * Z.to_nat K + 2 <= steps)%nat ->
  (forall s w0, iteration_count (_execute_search s w0).1 = iteration_count s + 1) /\
  (forall s, iteration_count s >= max_iterations s ->
             terminal (status (_validate_results s))) /\
  exists tr sf w',
    run_agent steps g K w = (Some (tr, sf), w') /\
    terminal (status sf) /\
    1 <= Z.of_nat (rounds tr) <= K /\
    iteration_count sf = Z.of_nat (rounds tr).
Proof.
  intros HK Hsteps.
  split; [exact execute_iteration|].
  split; [exact validate_at_ceiling|].
  apply run_reaches_end; assumption.
Qed.

End Termination.

Lemma run_terminates_within_max_iterations_witness :
  0 < 2 /\ (3 * Z.to_nat 2 + 2 <= 8)%nat /\
  exists tr sf w',
    @run_agent unit Scenario.offline 8 "Find email contacts" 2 tt
      = (Some (tr, sf), w') /\
    terminal (status sf) /\
    1 <= Z.of_nat (rounds tr) <= 2 /\
    iteration_count sf = Z.of_nat (rounds tr).
Proof.
  split; [lia|]. split; [simpl; lia|].
  apply (@run_terminates_within_max_iterations unit Scenario.offline
           "Find email contacts" 2 8 tt); [lia | simpl; lia].
Defined.

(** ** The decision after a round *)

Lemma validate_idempotent (s : AgentState) :
  _validate_results (_validate_results s) = _validate_results s.
Proof.
  unfold _validate_results.
  destruct (Z.of_nat (length (current_results s)) >=? target_count s) eqn:E1.
  - simpl. rewrite E1. reflexivity.
  - destruct (iteration_count s >=? max_iterations s) eqn:E2.
    + simpl. rewrite E1, E2. reflexivity.
    + rewrite E1, E2. reflexivity.
Qed.

Lemma validate_enough (s : AgentState) :
  Z.of_nat (length (current_results s)) >= target_count s ->
  status (_validate_results s) = COMPLETED.
Proof.
  intros H. unfold _validate_results.
  destruct (Z.geb_spec (Z.of_nat (length (current_results s))) (target_count s));
    [reflexivity | lia].
Qed.

(** C6. After a round the decision follows this priority: COMPLETED when
    [len(results) >= target_count]; otherwise FAILED when [iteration_count
    >= max_iterations]; otherwise the status stays what it was (so an
    IN_PROGRESS run continues). The decision is a function of the state
    alone: validating twice gives the state of validating once, and two
    states that agree on the result count, the target, the two counters and
    the status get the same route. *)
Theorem validation_priority_and_purity (s : AgentState) :
  (Z.of_nat (length (current_results s)) >= target_count s ->
   status (_validate_results s) = COMPLETED) /\
  (Z.of_nat (length (current_results s)) < target_count s ->
   iteration_count s >= max_iterations s ->
   status (_validate_results s) = FAILED) /\
  (Z.of_nat (length (current_results s)) < target_count s ->
   iteration_count s < max_iterations s ->
   status (_validate_results s) = status s /\
   (status s = IN_PROGRESS ->
    status (_validate_results s) = IN_PROGRESS /\
    _should_continue (_validate_results s) = "continue")) /\
  _validate_results (_validate_results s) = _validate_results s /\
  (forall s',
     length (current_results s') = length (current_results s) ->
     target_count s' = target_count s ->
     iteration_count s' = iteration_count s ->
     max_iterations s' = max_iterations s ->
     status s' = status s ->
     _should_continue (_validate_results s') = _should_continue (_validate_results s)).
Proof.
  repeat apply conj.
  - apply validate_enough.
  - intros H1 H2. unfold _validate_results.
    destruct (Z.geb_spec (Z.of_nat (length (current_results s))) (target_count s));
      [lia|].
    destruct (Z.geb_spec (iteration_count s) (max_iterations s)); [reflexivity | lia].
  - intros H1 H2.
    assert (Hid : _validate_results s = s).
    { unfold _validate_results.
      destruct (Z.geb_spec (Z.of_nat (length (current_results s))) (target_count s));
        [lia|].
      destruct (Z.geb_spec (iteration_count s) (max_iterations s)); [lia | reflexivity]. }
    rewrite Hid. split; [reflexivity|].
    intros Hs. split; [assumption|].
    unfold _should_continue. rewrite Hs. reflexivity.
  - apply validate_idempotent.
  - intros s' Hl Ht Hi Hm Hs. unfold _validate_results, _should_continue.
    rewrite Hl, Ht, Hi, Hm.
    destruct (_ >=? _); [reflexivity|].
    destruct (_ >=? _); [reflexivity|].
    rewrite Hs. reflexivity.
Qed.

Lemma validation_priority_and_purity_witness :
  status (_validate_results DecisionExamples.enough) = COMPLETED /\
  status (_validate_results DecisionExamples.exhausted) = FAILED /\
  _should_continue (_validate_results DecisionExamples.underway) = "continue".
Proof.
  split; [|split].
  - apply (proj1 (validation_priority_and_purity DecisionExamples.enough)).
    simpl; lia.
  - apply (proj1 (proj2 (validation_priority_and_purity DecisionExamples.exhausted)));
      simpl; lia.
  - apply (proj1 (proj2 (proj2
             (validation_priority_and_purity DecisionExamples.underway))));
      [simpl; lia | simpl; lia | reflexivity].
Defined.

(** ** The target count *)

Section TargetCount.

Context {World : Type} `{!Externals World}.

Lemma validate_nonpositive_target (s : AgentState) :
  target_count s <= 0 -> status (_validate_results s) = COMPLETED.
Proof.
  intros Hq. apply validate_enough. lia.
Qed.

(** C10. Goal analysis stores the quantity of a parsed response as
    [target_count] as it is: whatever integer [q] the response carries,
    [target_count] becomes [q]. When [q <= 0], validation answers
    COMPLETED for every state with that target, an empty result list
    included, so the run is over after its first round. *)
Theorem analyze_goal_stores_unvalidated_quantity
    (s : AgentState) (w : World) (a : analysis) (q : Z) :
  loads_analysis (llm_invoke (analysis_prompt (goal s)) w).1 = Some a ->
  quantity a = Some q ->
  target_count (_analyze_goal s w).1 = q /\
  (q <= 0 ->
   (forall s', target_count s' = q -> current_results s' = [] ->
               status (_validate_results s') = COMPLETED) /\
   (forall steps, exists sf w',
      graph_run (5 + steps) analyze_goal s w =
        (Some ([analyze_goal; generate_search_strategy; execute_search;
                validate_results; finalize_results], sf), w') /\
      status sf = COMPLETED /\ target_count sf = q)).
Proof.
  intros Hparse Hq.
  assert (Htc : target_count (_analyze_goal s w).1 = q).
  { unfold _analyze_goal, bind; simpl. rewrite Hparse, Hq. reflexivity. }
  split; [exact Htc|]. intros Hle. split.
  - intros s' Hs' _. apply validate_nonpositive_target. lia.
  - intros steps. change (5 + steps)%nat with (S (S (S (S (S steps))))).
    rewrite graph_run_step by discriminate; cbv zeta.
    change (run_node analyze_goal s w) with (_analyze_goal s w).
    change (next_node analyze_goal _) with generate_search_strategy.
    destruct (_analyze_goal s w) as [s1 w1]; cbn [fst snd] in *.
    rewrite graph_run_step by discriminate; cbv zeta.
    change (run_node generate_search_strategy s1 w1)
      with (_generate_search_strategy s1 w1).
    change (next_node generate_search_strategy _) with execute_search.
    pose proof (generate_frame s1 w1) as (_&Hgt&_).
    destruct (_generate_search_strategy s1 w1) as [s2 w2]; cbn [fst snd] in *.
    rewrite graph_run_step by discriminate; cbv zeta.
    change (run_node execute_search s2 w2) with (_execute_search s2 w2).
    change (next_node execute_search _) with validate_results.
    pose proof (execute_control s2 w2) as (_&Het&_).
    destruct (_execute_search s2 w2) as [s3 w3]; cbn [fst snd] in *.
    assert (Hc : status (_validate_results s3) = COMPLETED)
      by (apply validate_nonpositive_target; lia).
    rewrite graph_run_completed by assumption; cbn [fst snd].
    eexists _, _; split; [reflexivity|].
    pose proof (finalize_frame (_validate_results s3)) as (Hfs&_&_&_&_&Hft&_).
    pose proof (validate_frame s3) as (_&_&_&_&_&Hvt&_).
    split; congruence.
Qed.

End TargetCount.

Lemma analyze_goal_stores_unvalidated_quantity_witness :
  target_count
    (@_analyze_goal unit ZeroTarget.env (initial_state "Find email contacts" 5) tt).1
    = 0 /\
  exists sf w',
    @graph_run unit ZeroTarget.env 5 analyze_goal
      (initial_state "Find email contacts" 5) tt =
      (Some ([analyze_goal; generate_search_strategy; execute_search;
              validate_results; finalize_results], sf), w') /\
    status sf = COMPLETED /\ target_count sf = 0.
Proof.
  pose proof (@analyze_goal_stores_unvalidated_quantity unit ZeroTarget.env
                (initial_state "Find email contacts" 5) tt
                (mkAnalysis (Some 0) None) 0 eq_refl eq_refl) as [Ht Hrun].
  split; [exact Ht|].
  destruct (Hrun ltac:(lia)) as [_ Hgraph].
  exact (Hgraph 0%nat).
Defined.

(** ** Finalization *)

Lemma slice_to_nonneg {A} (l : list A) (n : Z) :
  0 <= n -> slice_to l n = take (Z.to_nat n) l.
Proof.
  intros Hn. unfold slice_to.
  destruct (Z.leb_spec 0 n); [reflexivity | lia].
Qed.

Lemma slice_to_prefix {A} (l : list A) (n : Z) : slice_to l n `prefix_of` l.
Proof. unfold slice_to. destruct (0 <=? n); apply prefix_take. Qed.

Section Finalization.

Context {World : Type} `{!Externals World}.

(** C7. When validation answers COMPLETED (with a target that is not
    negative), the graph runs finalization and the results become their
    first [target_count] entries, in discovery order; when it answers
    FAILED the graph ends and the results stay as accumulated. With a
    target of 10 and 12 accumulated records the run ends COMPLETED with
    exactly 10 results. *)
Theorem finalization_truncates_on_completed
    (s : AgentState) (steps : nat) (w : World) :
  (status (_validate_results s) = COMPLETED -> 0 <= target_count s ->
   exists sf,
     graph_run (2 + steps) validate_results s w =
       (Some ([validate_results; finalize_results], sf), w) /\
     status sf = COMPLETED /\
     current_results sf = take (Z.to_nat (target_count s)) (current_results s)) /\
  (status (_validate_results s) = FAILED ->
   exists sf,
     graph_run (1 + steps) validate_results s w =
       (Some ([validate_results], sf), w) /\
     status sf = FAILED /\
     current_results sf = current_results s) /\
  (target_count s = 10 -> length (current_results s) = 12%nat ->
   exists sf,
     graph_run (2 + steps) validate_results s w =
       (Some ([validate_results; finalize_results], sf), w) /\
     status sf = COMPLETED /\
     length (current_results sf) = 10%nat /\
     current_results sf `prefix_of` current_results s).
Proof.
  pose proof (validate_frame s) as (Hvr&_&_&_&_&Hvt&_).
  pose proof (finalize_frame (_validate_results s)) as (Hfs&_&_&_&_&_&Hfr).
  assert (Hdone : status (_validate_results s) = COMPLETED -> 0 <= target_count s ->
    exists sf,
      graph_run (2 + steps) validate_results s w =
        (Some ([validate_results; finalize_results], sf), w) /\
      status sf = COMPLETED /\
      current_results sf = take (Z.to_nat (target_count s)) (current_results s)).
  { intros Hc Hpos. exists (_finalize_results (_validate_results s)).
    split; [apply graph_run_completed; assumption|].
    split; [congruence|].
    rewrite Hfr, Hvr, Hvt. apply slice_to_nonneg; assumption. }
  split; [exact Hdone|]. split.
  - intros Hf. exists (_validate_results s).
    split; [apply graph_run_failed; assumption|].
    split; assumption.
  - intros Ht Hl.
    destruct Hdone as (sf&Hrun&Hst&Hres).
    + apply validate_enough. lia.
    + lia.
    + exists sf. split; [assumption|]. split; [assumption|].
      rewrite Hres, Ht. split; [rewrite length_take; lia | apply prefix_take].
Qed.

End Finalization.

Lemma finalization_truncates_on_completed_witness :
  (exists sf,
     @graph_run unit Scenario.offline 2 validate_results TwelveFound.after_round tt =
       (Some ([validate_results; finalize_results], sf), tt) /\
     status sf = COMPLETED /\
     current_results sf =
       take (Z.to_nat (target_count TwelveFound.after_round))
         (current_results TwelveFound.after_round)) /\
  (exists sf,
     @graph_run unit Scenario.offline 2 validate_results TwelveFound.after_round tt =
       (Some ([validate_results; finalize_results], sf), tt) /\
     status sf = COMPLETED /\
     length (current_results sf) = 10%nat /\
     current_results sf `prefix_of` current_results TwelveFound.after_round) /\
  (exists sf,
     @graph_run unit Scenario.offline 1 validate_results TwelveFound.short tt =
       (Some ([validate_results], sf), tt) /\
     status sf = FAILED /\
     current_results sf = current_results TwelveFound.short).
Proof.
  split; [|split].
  - apply (proj1 (@finalization_truncates_on_completed unit Scenario.offline
                    TwelveFound.after_round 0 tt)); [reflexivity | simpl; lia].
  - apply (proj2 (proj2 (@finalization_truncates_on_completed unit Scenario.offline
                           TwelveFound.after_round 0 tt))); reflexivity.
  - apply (proj1 (proj2 (@finalization_truncates_on_completed unit Scenario.offline
                           TwelveFound.short 0 tt))); reflexivity.
Defined.

(** ** After a terminal status *)

(** C5, as stated, fails: in a COMPLETED state the next component is
    finalization, and it changes the results (12 records become 10). *)
Lemma completed_state_results_mutated :
  terminal (status Overfull.validated) /\
  next_node validate_results Overfull.validated = finalize_results /\
  current_results
    (@run_node unit Scenario.offline finalize_results Overfull.validated tt).1
    <> current_results Overfull.validated.
Proof.
  split; [left; reflexivity|]. split; [reflexivity|].
  intros H. apply (f_equal length) in H. vm_compute in H. discriminate.
Qed.

Section AfterTerminal.

Context {World : Type} `{!Externals World}.

(** C5, amended. Once the status is COMPLETED or FAILED no search round
    and no planning step runs again, and no external call is made: after
    FAILED the graph ends with the state as it is; after COMPLETED only
    finalization runs. The queries are unchanged, the status is unchanged,
    and the results are at most cut down to a prefix of themselves (their
    first [target_count] entries); nothing is added or reordered. *)
Theorem terminal_state_only_finalized (s : AgentState) (steps : nat) (w : World) :
  terminal (status s) ->
  exists tr sf,
    graph_run (1 + steps) (next_node validate_results s) s w = (Some (tr, sf), w) /\
    search_queries sf = search_queries s /\
    attempted_sources sf = attempted_sources s /\
    status sf = status s /\
    current_results sf `prefix_of` current_results s /\
    (status s = FAILED -> tr = [] /\ sf = s) /\
    (status s = COMPLETED ->
     tr = [finalize_results] /\
     current_results sf = slice_to (current_results s) (target_count s)).
Proof.
  intros [Hc|Hf]; rewrite next_after_validate.
  - rewrite Hc. exists [finalize_results], (_finalize_results s).
    rewrite graph_run_step by discriminate; cbv zeta.
    change (run_node finalize_results s w) with (_finalize_results s, w).
    cbn [fst snd]. change (next_node finalize_results _) with END.
    rewrite graph_run_END; cbn [fst snd].
    pose proof (finalize_frame s) as (Hfs&Hfq&Hfa&_&_&_&Hfr).
    split; [reflexivity|].
    repeat split; try assumption; try congruence.
    rewrite Hfr. apply slice_to_prefix.
  - rewrite Hf. exists [], s. rewrite graph_run_END.
    repeat split; try reflexivity; congruence.
Qed.

End AfterTerminal.

Lemma terminal_state_only_finalized_witness :
  exists tr sf,
    @graph_run unit Scenario.offline 1
      (next_node validate_results Overfull.validated) Overfull.validated tt
      = (Some (tr, sf), tt) /\
    search_queries sf = search_queries Overfull.validated /\
    attempted_sources sf = attempted_sources Overfull.validated /\
    status sf = status Overfull.validated /\
    current_results sf `prefix_of` current_results Overfull.validated /\
    (status Overfull.validated = FAILED -> tr = [] /\ sf = Overfull.validated) /\
    (status Overfull.validated = COMPLETED ->
     tr = [finalize_results] /\
     current_results sf =
       slice_to (current_results Overfull.validated)
         (target_count Overfull.validated)).
Proof.
  apply (@terminal_state_only_finalized unit Scenario.offline
           Overfull.validated 0 tt).
  left; reflexivity.
Defined.

(** ** The report *)

(** C8, as stated, fails: with nothing answering and [max_iterations = 1]
    the run ends FAILED after one round, finalization is not among the
    nodes executed, and the only message of the final state is the goal:
    no report was built. *)
Lemma failed_run_builds_no_report :
  exists sf,
    @run_agent unit Scenario.offline 5 "Find email contacts" 1 tt =
      (Some ([analyze_goal; generate_search_strategy; execute_search;
              validate_results], sf), tt) /\
    status sf = FAILED /\
    messages sf = [HumanMessage "Find email contacts"].
Proof. vm_compute. eexists; repeat split. Qed.

Section FailedRun.

Context {World : Type} `{!Externals World}.

(** Finalization is entered only in status COMPLETED, and keeps it, so a
    run that ends FAILED never went through it; the other nodes after
    goal analysis leave the messages alone. *)
Lemma graph_run_failed_no_report (steps : nat) :
  forall (n : node) (s : AgentState) (w : World) tr sf w',
    graph_run steps n s w = (Some (tr, sf), w') ->
    n <> analyze_goal ->
    (n = finalize_results -> status s = COMPLETED) ->
    status sf = FAILED ->
    (finalize_results ∉ tr) /\ messages sf = messages s.
Proof.
  induction steps as [|steps IH]; intros n s w tr sf w' Hrun Hn Hfin Hfailed.
  - destruct n; simpl in Hrun; try discriminate.
    injection Hrun as <- <- <-. split; [apply not_elem_of_nil | reflexivity].
  - destruct (decide (n = END)) as [->|Hend].
    { rewrite graph_run_END in Hrun. injection Hrun as <- <- <-.
      split; [apply not_elem_of_nil | reflexivity]. }
    rewrite graph_run_step in Hrun by assumption. cbv zeta in Hrun.
    destruct (run_node n s w) as [s1 w1] eqn:Hnode; cbn [fst snd] in Hrun.
    destruct (graph_run steps (next_node n s1) s1 w1) as [[[tr1 sf1]|] w2] eqn:Hrest;
      cbn [fst snd] in Hrun; [|discriminate].
    injection Hrun as <- <- <-.
    assert (Hnext : next_node n s1 <> analyze_goal).
    { destruct n; try (simpl; discriminate).
      rewrite next_after_validate. destruct (status s1); discriminate. }
    assert (Hnextfin : next_node n s1 = finalize_results -> status s1 = COMPLETED).
    { destruct n; try (simpl; discriminate).
      rewrite next_after_validate. destruct (status s1); try discriminate.
      reflexivity. }
    destruct (IH _ _ _ _ _ _ Hrest Hnext Hnextfin Hfailed) as [Hnotin Hmsg].
    destruct n; try congruence.
    + pose proof (generate_frame s w) as (_&_&_&_&_&_&Hm).
      simpl in Hnode. rewrite Hnode in Hm. simpl in Hm.
      split; [|congruence].
      apply not_elem_of_cons; split; [discriminate | assumption].
    + pose proof (execute_control s w) as (_&_&_&_&_&Hm&_).
      simpl in Hnode. rewrite Hnode in Hm. simpl in Hm.
      split; [|congruence].
      apply not_elem_of_cons; split; [discriminate | assumption].
    + pose proof (validate_frame s) as (_&_&_&_&_&_&Hm).
      simpl in Hnode. injection Hnode as <- <-.
      split; [|congruence].
      apply not_elem_of_cons; split; [discriminate | assumption].
    + pose proof (refine_frame s w) as (_&_&_&_&_&_&Hm).
      simpl in Hnode. rewrite Hnode in Hm. simpl in Hm.
      split; [|congruence].
      apply not_elem_of_cons; split; [discriminate | assumption].
    + exfalso. simpl in Hnode. injection Hnode as <- <-.
      simpl in Hrest. rewrite graph_run_END in Hrest.
      injection Hrest as <- <- <-.
      pose proof (finalize_frame s) as (Hfs&_).
      rewrite Hfs, (Hfin eq_refl) in Hfailed. discriminate.
Qed.

(** C8, amended. A run with a positive [max_iterations] does not raise:
    it returns its terminal state. When that state is FAILED it carries
    the status, the results accumulated and the iteration count (the
    number of rounds), but finalization was not executed and no report
    message was added: the messages are those goal analysis left. *)
Theorem failed_run_returns_state_without_report
    (g : string) (K : Z) (steps : nat) (w : World) :
  0 < K ->
  (3 * Z.to_nat K + 2 <= steps)%nat ->
  exists tr sf w',
    run_agent steps g K w = (Some (tr, sf), w') /\
    terminal (status sf) /\
    (status sf = FAILED ->
     (finalize_results ∉ tr) /\
     messages sf = messages (_analyze_goal (initial_state g K) w).1 /\
     iteration_count sf = Z.of_nat (rounds tr)).
Proof.
  intros HK Hsteps.
  destruct (run_reaches_end g K steps w HK Hsteps) as (tr&sf&w'&Hrun&Hterm&_&Hit).
  exists tr, sf, w'. split; [assumption|]. split; [assumption|].
  intros Hfailed. unfold run_agent in Hrun.
  destruct steps as [|steps]; [discriminate|].
  rewrite graph_run_step in Hrun by discriminate. cbv zeta in Hrun.
  change (run_node analyze_goal ?s ?w) with (_analyze_goal s w) in Hrun.
  change (next_node analyze_goal _) with generate_search_strategy in Hrun.
  destruct (_analyze_goal (initial_state g K) w) as [s1 w1]; cbn [fst snd] in *.
  destruct (graph_run steps generate_search_strategy s1 w1)
    as [[[tr1 sf1]|] w2] eqn:Hrest; cbn [fst snd] in Hrun; [|discriminate].
  injection Hrun as <- <- <-.
  destruct (graph_run_failed_no_report steps generate_search_strategy
              s1 w1 tr1 sf1 w2 Hrest) as [Hnotin Hmsg];
    [discriminate | discriminate | assumption |].
  split; [|split; assumption].
  apply not_elem_of_cons; split; [discriminate | assumption].
Qed.

End FailedRun.

Lemma failed_run_returns_state_without_report_witness :
  0 < 1 /\
  exists tr sf w',
    @run_agent unit Scenario.offline 5 "Find email contacts" 1 tt
      = (Some (tr, sf), w') /\
    terminal (status sf) /\
    (status sf = FAILED ->
     (finalize_results ∉ tr) /\
     messages sf =
       messages (@_analyze_goal unit Scenario.offline
                   (initial_state "Find email contacts" 1) tt).1 /\
     iteration_count sf = Z.of_nat (rounds tr)).
Proof.
  split; [lia|].
  apply (@failed_run_returns_state_without_report unit Scenario.offline
           "Find email contacts" 1 5 tt); [lia | simpl; lia].
Defined.

(** ** A failing search provider *)

(** C3 fails on the code. The provider raises on both searches of the
    only query of the round. The query yields no hit, it is marked
    attempted, the results are unchanged and the round returns, as the
    claim says; but [last_error] is still unset where the claim has it set
    to the error text. [search] has absorbed the error, so the handler of
    [_execute_search] that assigns [last_error] is not entered. *)
Theorem search_failure_leaves_last_error_unset :
  (@ddgs_text unit Scenario.offline "recruiter email contacts" 5 tt).1
    = inl "connection refused" /\
  (@ddgs_text unit Scenario.offline
     "recruiter email contacts site:linkedin.com" 5 tt).1
    = inl "connection refused" /\
  take 2 (enhanced_queries "recruiter email contacts" (goal Scenario.one_query))
    = ["recruiter email contacts"; "recruiter email contacts site:linkedin.com"] /\
  attempted_sources
    (@_execute_search unit Scenario.offline Scenario.one_query tt).1
    = ["recruiter email contacts"] /\
  current_results
    (@_execute_search unit Scenario.offline Scenario.one_query tt).1
    = current_results Scenario.one_query /\
  last_error (@_execute_search unit Scenario.offline Scenario.one_query tt).1
    = None /\
  last_error (@_execute_search unit Scenario.offline Scenario.one_query tt).1
    <> Some "connection refused".
Proof. vm_compute. repeat split. discriminate. Qed.

Section SearchFailure.

Context {World : Type} `{!Externals World}.

Lemma search_raises_empty (q : string) (n : Z) (w : World) :
  search_raises q -> (search q n w).1 = [].
Proof.
  intros Hq. unfold search, bind. destruct (Hq n w) as [e He].
  destruct (ddgs_text q n w) as [r w1]; simpl in *. rewrite He. reflexivity.
Qed.

Lemma perform_search_fold_raises (g : string) (l : list string) :
  (forall q, q ∈ l -> search_raises q) ->
  forall (results : list record) (w : World),
    (foldM
       (fun results enhanced_query =>
          let* search_results := search enhanced_query 5 in
          foldM (process_hit g) search_results results)
       l results w).1 = results.
Proof.
  induction l as [|q l IH]; intros Hl results w; simpl; [reflexivity|].
  unfold bind at 1. unfold bind at 2.
  pose proof (search_raises_empty q 5 w (Hl q (list_elem_of_here q l))) as Hq.
  destruct (search q 5 w) as [hits w1]; simpl in Hq; subst hits. simpl.
  apply IH. intros q' Hq'. apply Hl. apply list_elem_of_further, Hq'.
Qed.

Lemma perform_search_raises (query g : string) (w : World) :
  (forall q, q ∈ take 2 (enhanced_queries query g) -> search_raises q) ->
  (_perform_search query g w).1 = [].
Proof. intros Hl. unfold _perform_search. apply perform_search_fold_raises, Hl. Qed.

Lemma try_query_raises (s : AgentState) (query : string) (w : World) :
  (forall q, q ∈ take 2 (enhanced_queries query (goal s)) -> search_raises q) ->
  current_results (try_query s query w).1 = current_results s /\
  attempted_sources (try_query s query w).1 = attempted_sources s ++ [query].
Proof.
  intros Hl. unfold try_query, bind.
  pose proof (perform_search_raises query (goal s) w Hl) as Hp.
  destruct (_perform_search query (goal s) w) as [results w1]; simpl in *.
  subst results. split; reflexivity.
Qed.

Lemma round_raises (l : list string) :
  (forall q, search_raises q) ->
  forall (s : AgentState) (w : World),
    current_results (foldM try_query l s w).1 = current_results s /\
    attempted_sources (foldM try_query l s w).1 = attempted_sources s ++ l.
Proof.
  intros Hall. induction l as [|q l IH]; intros s w; simpl.
  - rewrite app_nil_r. split; reflexivity.
  - unfold bind.
    destruct (try_query_raises s q w (fun q' _ => Hall q')) as [Hr Ha].
    destruct (IH (try_query s q w).1 (try_query s q w).2) as [Hr' Ha'].
    rewrite Hr', Ha', Hr, Ha, <- app_assoc. split; reflexivity.
Qed.

(** What a failing provider does leave intact. If the search provider
    raises on the searches of a query, that query yields zero hits: it is
    marked attempted and the results are what they were. When every search
    call raises, the whole round adds no result, marks every selected query
    attempted and still counts as one iteration. The round itself always
    returns a state: no failure of the provider leaves it. *)
Theorem search_failure_yields_no_hits (s : AgentState) (w : World) :
  (forall query,
     (forall q, q ∈ take 2 (enhanced_queries query (goal s)) -> search_raises q) ->
     (_perform_search query (goal s) w).1 = [] /\
     current_results (try_query s query w).1 = current_results s /\
     attempted_sources (try_query s query w).1 = attempted_sources s ++ [query]) /\
  ((forall q, search_raises q) ->
   current_results (_execute_search s w).1 = current_results s /\
   attempted_sources (_execute_search s w).1
     = attempted_sources s ++ take 3 (untried s) /\
   iteration_count (_execute_search s w).1 = iteration_count s + 1).
Proof.
  split.
  - intros query Hq. split; [apply perform_search_raises, Hq|].
    apply try_query_raises, Hq.
  - intros Hall. split; [|split; [|apply execute_iteration]].
    + unfold _execute_search, bind; simpl.
      apply (round_raises (take 3 (untried s)) Hall s w).
    + unfold _execute_search, bind; simpl.
      apply (round_raises (take 3 (untried s)) Hall s w).
Qed.

End SearchFailure.

Lemma search_failure_yields_no_hits_witness :
  ((@_perform_search unit Scenario.offline "recruiter email contacts"
      (goal Scenario.one_query) tt).1 = [] /\
   current_results
     (@try_query unit Scenario.offline Scenario.one_query
        "recruiter email contacts" tt).1 = current_results Scenario.one_query /\
   attempted_sources
     (@try_query unit Scenario.offline Scenario.one_query
        "recruiter email contacts" tt).1
     = attempted_sources Scenario.one_query ++ ["recruiter email contacts"]) /\
  (current_results (@_execute_search unit Scenario.offline Scenario.one_query tt).1
     = current_results Scenario.one_query /\
   attempted_sources (@_execute_search unit Scenario.offline Scenario.one_query tt).1
     = attempted_sources Scenario.one_query ++ take 3 (untried Scenario.one_query) /\
   iteration_count (@_execute_search unit Scenario.offline Scenario.one_query tt).1
     = iteration_count Scenario.one_query + 1).
Proof.
  split.
  - apply (proj1 (@search_failure_yields_no_hits unit Scenario.offline
                    Scenario.one_query tt)).
    intros q _ n w. exists "connection refused". reflexivity.
  - apply (proj2 (@search_failure_yields_no_hits unit Scenario.offline
                    Scenario.one_query tt)).
    intros q n w. exists "connection refused". reflexivity.
Defined.

(** ** A page that cannot be fetched *)

Section EmptyPage.

Context {World : Type} `{!Externals World}.

(** Whatever the hit, an empty page (what [crawler] makes of a failed
    fetch) leaves the list of results as it was. *)
Lemma process_hit_empty_page (g : string) (results : list record) (h : hit) (w : World) :
  (crawler (get_or h "href" EmptyString) w).1 = EmptyString ->
  (process_hit g results h w).1 = results.
Proof.
  intros Hpage. unfold process_hit.
  destruct (_is_relevant_result h g); [|reflexivity].
  destruct (String.eqb (get_or h "href" EmptyString) EmptyString); [reflexivity|].
  unfold bind. rewrite Hpage. reflexivity.
Qed.

Lemma crawler_failure_is_empty (url e : string) (w : World) :
  (crawler_arun url w).1 = inl e -> (crawler url w).1 = EmptyString.
Proof.
  intros He. unfold crawler, bind.
  destruct (crawler_arun url w) as [r w1]; simpl in *. rewrite He. reflexivity.
Qed.

End EmptyPage.

(** C4 fails on the code. The hit passes the relevance filter and has an
    address; its fetch raises (first part) or returns an empty page (second
    part); in both cases [_perform_search] returns no record and the round
    ends with no result: the base record of the accepted hit is not kept. *)
Theorem accepted_hit_dropped_when_fetch_fails :
  _is_relevant_result FetchDown.the_hit FetchDown.the_goal = true /\
  (@crawler_arun unit (FetchDown.env (inl "timeout")) "https://tools.example" tt).1
    = inl "timeout" /\
  (@_perform_search unit (FetchDown.env (inl "timeout"))
     "developer tools" FetchDown.the_goal tt).1 = [] /\
  current_results
    (@_execute_search unit (FetchDown.env (inl "timeout")) FetchDown.start tt).1 = [] /\
  (@_perform_search unit (FetchDown.env (inr EmptyString))
     "developer tools" FetchDown.the_goal tt).1 = [] /\
  current_results
    (@_execute_search unit (FetchDown.env (inr EmptyString)) FetchDown.start tt).1 = [] /\
  (@_perform_search unit (FetchDown.env (inr "Tools for developers"))
     "developer tools" FetchDown.the_goal tt).1
    = [<["content" := VStr "Tools for developers"]> (base_result FetchDown.the_hit)].
Proof. vm_compute. repeat split. Qed.

(** ** Uniqueness of the accepted results *)

(** C2 fails on the code. Two pages with different addresses carry the same
    e-mail address; after the round both records are in the results, with
    equal [emails]. The uniqueness test reads the key [email], which the
    records built from pages do not have. *)
Theorem shared_email_accepted_twice :
  current_results (@_execute_search unit SharedAddress.env SharedAddress.start tt).1
    = [SharedAddress.with_address SharedAddress.hit1;
       SharedAddress.with_address SharedAddress.hit2] /\
  SharedAddress.with_address SharedAddress.hit1 !! "emails"
    = Some (VList ["jane@corp.example"]) /\
  SharedAddress.with_address SharedAddress.hit2 !! "emails"
    = Some (VList ["jane@corp.example"]) /\
  SharedAddress.with_address SharedAddress.hit1 !! "url"
    = Some (VStr "https://a.example/team") /\
  SharedAddress.with_address SharedAddress.hit2 !! "url"
    = Some (VStr "https://b.example/about") /\
  SharedAddress.with_address SharedAddress.hit1 !! "email" = None.
Proof. vm_compute. repeat split. Qed.

(** ** The query ledger *)

Lemma first_appearances_filter (P : string -> Prop) `{!forall x, Decision (P x)}
    (l : list string) :
  first_appearances (filter P l) = filter P (first_appearances l).
Proof.
  induction l as [|x l IH]; [reflexivity|].
  rewrite filter_cons. destruct (decide (P x)) as [HP|HP]; simpl.
  - rewrite filter_cons_True by assumption. f_equal.
    rewrite IH, !list_filter_filter. apply list_filter_iff. tauto.
  - rewrite filter_cons_False by assumption.
    rewrite IH, list_filter_filter. apply list_filter_iff.
    intros y; split; [|tauto].
    intros Hy; split; [assumption|]. intros ->. contradiction.
Qed.

Lemma elem_of_first_appearances (x : string) (l : list string) :
  x ∈ first_appearances l <-> x ∈ l.
Proof.
  induction l as [|y l IH]; simpl; [reflexivity|].
  rewrite !elem_of_cons, list_elem_of_filter, IH.
  destruct (decide (x = y)); tauto.
Qed.

Lemma NoDup_first_appearances (l : list string) : NoDup (first_appearances l).
Proof.
  induction l as [|x l IH]; simpl; [constructor|].
  apply NoDup_cons. split.
  - rewrite list_elem_of_filter. tauto.
  - apply NoDup_filter, IH.
Qed.

Lemma NoDup_merge_suppressing (ledger new : list string) :
  NoDup ledger -> NoDup (merge_suppressing ledger new).
Proof.
  intros Hl. unfold merge_suppressing. apply NoDup_app.
  split; [assumption|]. split; [|apply NoDup_first_appearances].
  intros x Hx. rewrite elem_of_first_appearances, list_elem_of_filter. tauto.
Qed.

(** The loop of the source computes the merge. *)
Lemma add_new_queries_merge (new : list string) :
  forall ledger, add_new_queries ledger new = merge_suppressing ledger new.
Proof.
  unfold merge_suppressing.
  induction new as [|q new IH]; intros ledger; simpl.
  - rewrite app_nil_r. reflexivity.
  - unfold add_new_queries in *. simpl.
    destruct (bool_decide_reflect (q ∈ ledger)) as [Hin|Hnin].
    + rewrite IH, filter_cons_False by tauto. reflexivity.
    + rewrite IH, filter_cons_True by assumption. simpl.
      rewrite <- app_assoc. simpl. do 2 f_equal.
      rewrite <- first_appearances_filter. f_equal.
      rewrite list_filter_filter. apply list_filter_iff.
      intros y. rewrite elem_of_app, list_elem_of_singleton. tauto.
Qed.

Lemma refine_fallback_loop (g : string) (ledger : list string) :
  foldl
    (fun search_queries term =>
       let new_query := "best " +:+ term +:+ " resources 2024" in
       if bool_decide (new_query ∈ search_queries) then search_queries
       else search_queries ++ [new_query])
    ledger (Str.split g)
  = add_new_queries ledger (refinement_templates g).
Proof.
  unfold add_new_queries, refinement_templates.
  generalize (Str.split g) as terms. intros terms. revert ledger.
  induction terms as [|t terms IH]; intros ledger; simpl; [reflexivity|].
  apply IH.
Qed.

Lemma filter_not_in_nil (l : list string) :
  filter (fun q => q ∉ @nil string) l = l.
Proof.
  induction l as [|x l IH]; [reflexivity|].
  rewrite filter_cons_True by apply not_elem_of_nil. f_equal. exact IH.
Qed.

Lemma first_appearances_three (a b c : string) :
  a <> b -> a <> c -> b <> c -> first_appearances [a; b; c] = [a; b; c].
Proof.
  intros Hab Hac Hbc. simpl.
  repeat (rewrite filter_cons_True by congruence).
  rewrite !filter_nil. reflexivity.
Qed.

Lemma initial_templates_distinct (g : string) :
  first_appearances (initial_templates g) = initial_templates g.
Proof.
  unfold initial_templates.
  destruct (Str.contains "website" _); [|destruct (Str.contains "email" _)].
  - apply first_appearances_three; intros Heq; simpl in Heq; discriminate.
  - apply first_appearances_three; discriminate.
  - reflexivity.
Qed.

(** The fallback of [_generate_search_strategy] has no membership test of
    its own: it relies on the ledger being empty, as it is whenever a run
    enters the step. On a state built by hand, whose ledger already holds
    the first templated query, the three templates are appended all the
    same. *)
Lemma generate_fallback_duplicates_query :
  NoDup (search_queries StaleLedger.start) /\
  @loads_queries unit Scenario.offline
    (@llm_invoke unit Scenario.offline
       (strategy_prompt (goal StaleLedger.start) 0 10
          (search_queries StaleLedger.start)) tt).1 = None /\
  search_queries
    (@_generate_search_strategy unit Scenario.offline StaleLedger.start tt).1
    = ["recruiter email contacts"; "recruiter email contacts";
       "HR manager email directory"; "talent acquisition email list"] /\
  ~ NoDup (search_queries
             (@_generate_search_strategy unit Scenario.offline StaleLedger.start tt).1).
Proof.
  split; [apply NoDup_singleton|]. split; [reflexivity|]. split; [reflexivity|].
  change (search_queries _) with
    ["recruiter email contacts"; "recruiter email contacts";
     "HR manager email directory"; "talent acquisition email list"].
  intros Hnd. apply NoDup_cons in Hnd as [Hnotin _].
  apply Hnotin. apply list_elem_of_here.
Qed.

Section Ledger.

Context {World : Type} `{!Externals World}.

(** The two planning steps on an arbitrary state. In the parsed path of
    both and in the fallback of the refinement step the proposed queries
    are merged into the ledger with duplicate suppression, in the order of
    first appearance; such a merge keeps a duplicate-free ledger
    duplicate-free and keeps the ledger as a prefix. In the fallback of the
    initial step the templates are put after the ledger, which is that same
    merge when the ledger is empty. *)
Theorem planner_merges_new_queries (s : AgentState) (w : World) :
  (forall new,
     loads_queries
       (llm_invoke (strategy_prompt (goal s) (length (current_results s))
                      (target_count s) (search_queries s)) w).1 = Some new ->
     search_queries (_generate_search_strategy s w).1
       = merge_suppressing (search_queries s) new) /\
  (forall new,
     loads_queries
       (llm_invoke (refinement_prompt (goal s) (target_count s)
                      (length (current_results s)) (attempted_sources s)) w).1
       = Some new ->
     search_queries (_refine_strategy s w).1
       = merge_suppressing (search_queries s) new) /\
  (loads_queries
     (llm_invoke (refinement_prompt (goal s) (target_count s)
                    (length (current_results s)) (attempted_sources s)) w).1 = None ->
   search_queries (_refine_strategy s w).1
     = merge_suppressing (search_queries s) (refinement_templates (goal s))) /\
  (loads_queries
     (llm_invoke (strategy_prompt (goal s) (length (current_results s))
                    (target_count s) (search_queries s)) w).1 = None ->
   search_queries (_generate_search_strategy s w).1
     = search_queries s ++ initial_templates (goal s) /\
   (search_queries s = [] ->
    search_queries (_generate_search_strategy s w).1
      = merge_suppressing [] (initial_templates (goal s)))) /\
  (forall new,
     NoDup (search_queries s) ->
     NoDup (merge_suppressing (search_queries s) new) /\
     search_queries s `prefix_of` merge_suppressing (search_queries s) new).
Proof.
  repeat apply conj.
  - intros new Hp. unfold _generate_search_strategy, bind; simpl.
    rewrite Hp. simpl. apply add_new_queries_merge.
  - intros new Hp. unfold _refine_strategy, bind; simpl.
    rewrite Hp. simpl. apply add_new_queries_merge.
  - intros Hp. unfold _refine_strategy, bind; simpl.
    rewrite Hp. simpl. rewrite refine_fallback_loop. apply add_new_queries_merge.
  - intros Hp.
    assert (Hgen : search_queries (_generate_search_strategy s w).1
                   = search_queries s ++ initial_templates (goal s)).
    { unfold _generate_search_strategy, initial_templates, bind; simpl.
      rewrite Hp.
      destruct (Str.contains "website" _); [reflexivity|].
      destruct (Str.contains "email" _); [reflexivity|].
      rewrite app_nil_r. reflexivity. }
    split; [exact Hgen|].
    intros Hempty. rewrite Hgen, Hempty. unfold merge_suppressing. simpl.
    rewrite filter_not_in_nil. symmetry. apply initial_templates_distinct.
  - intros new Hnd. split; [apply NoDup_merge_suppressing, Hnd|].
    unfold merge_suppressing. apply prefix_app_r. reflexivity.
Qed.

End Ledger.

Lemma planner_merges_new_queries_witness :
  search_queries (@_generate_search_strategy unit ParsedPlan.env StaleLedger.start tt).1
    = merge_suppressing (search_queries StaleLedger.start) ParsedPlan.proposed /\
  search_queries (@_refine_strategy unit ParsedPlan.env StaleLedger.start tt).1
    = merge_suppressing (search_queries StaleLedger.start) ParsedPlan.proposed /\
  search_queries (@_refine_strategy unit Scenario.offline StaleLedger.start tt).1
    = merge_suppressing (search_queries StaleLedger.start)
        (refinement_templates (goal StaleLedger.start)) /\
  search_queries
    (@_generate_search_strategy unit Scenario.offline
       (initial_state "Find email contacts" 5) tt).1
    = merge_suppressing [] (initial_templates "Find email contacts") /\
  NoDup (merge_suppressing (search_queries StaleLedger.start) ParsedPlan.proposed).
Proof.
  repeat apply conj.
  - apply (proj1 (@planner_merges_new_queries unit ParsedPlan.env
                    StaleLedger.start tt)). reflexivity.
  - apply (proj1 (proj2 (@planner_merges_new_queries unit ParsedPlan.env
                           StaleLedger.start tt))). reflexivity.
  - apply (proj1 (proj2 (proj2 (@planner_merges_new_queries unit Scenario.offline
                                  StaleLedger.start tt)))). reflexivity.
  - apply (proj1 (proj2 (proj2 (proj2
             (@planner_merges_new_queries unit Scenario.offline
                (initial_state "Find email contacts" 5) tt)))));
      reflexivity.
  - apply (proj2 (proj2 (proj2 (proj2
             (@planner_merges_new_queries unit ParsedPlan.env
                StaleLedger.start tt))))).
    apply NoDup_singleton.
Defined.


Section LedgerInRun.

Context {World : Type} `{!Externals World}.



End LedgerInRun.


(** ** Uniqueness of addresses *)

(** What the scan of [is_unique] establishes for the address. *)
Lemma is_unique_url (url email : value) (current : list record) :
  is_unique url email current = true ->
  truthy url = true ->
  forall existing, existing ∈ current -> existing !! "url" <> Some url.
Proof.
  intros Hu Ht. induction current as [|r current IH]; intros existing Hin.
  - apply elem_of_nil in Hin. contradiction.
  - simpl in Hu. rewrite Ht in Hu. simpl in Hu.
    destruct (bool_decide_reflect (r !! "url" = Some url)) as [|Hne];
      [discriminate|].
    destruct (truthy email && bool_decide (r !! "email" = Some email));
      [discriminate|].
    apply elem_of_cons in Hin as [->|Hin]; [assumption|].
    apply IH; assumption.
Qed.

Lemma urls_unique_nil : urls_unique [].
Proof. intros i j r1 r2 u H. rewrite lookup_nil in H. discriminate. Qed.

Lemma urls_unique_snoc (current : list record) (result : record) :
  urls_unique current ->
  is_unique (get_or result "url" (VStr EmptyString))
    (get_or result "email" (VStr EmptyString)) current = true ->
  urls_unique (current ++ [result]).
Proof.
  intros Hcur Huniq i j r1 r2 u H1 H2 Hij Hu1 Hu2.
  destruct (truthy u) eqn:Ht; [exfalso|reflexivity].
  apply lookup_snoc_Some in H1 as [[Hi H1]|[Hi ->]];
    apply lookup_snoc_Some in H2 as [[Hj H2]|[Hj ->]].
  - pose proof (Hcur i j r1 r2 u H1 H2 Hij Hu1 Hu2). congruence.
  - assert (Hg : get_or r2 "url" (VStr EmptyString) = u)
      by (unfold get_or; rewrite Hu2; reflexivity).
    rewrite Hg in Huniq.
    apply (is_unique_url _ _ _ Huniq Ht r1); [|assumption].
    apply list_elem_of_lookup. exists i. assumption.
  - assert (Hg : get_or r1 "url" (VStr EmptyString) = u)
      by (unfold get_or; rewrite Hu1; reflexivity).
    rewrite Hg in Huniq.
    apply (is_unique_url _ _ _ Huniq Ht r2); [|assumption].
    apply list_elem_of_lookup. exists j. assumption.
  - lia.
Qed.

Lemma add_unique_urls (results : list record) :
  forall current, urls_unique current -> urls_unique (add_unique current results).
Proof.
  unfold add_unique.
  induction results as [|r results IH]; intros current Hcur; simpl; [assumption|].
  apply IH.
  destruct (is_unique _ _ current) eqn:Hu; [|assumption].
  apply urls_unique_snoc; assumption.
Qed.

Lemma urls_unique_take (n : nat) (l : list record) :
  urls_unique l -> urls_unique (take n l).
Proof.
  intros Hl i j r1 r2 u H1 H2.
  apply lookup_take_Some in H1 as [H1 _]. apply lookup_take_Some in H2 as [H2 _].
  apply (Hl i j r1 r2 u); assumption.
Qed.

Section UniqueAddresses.

Context {World : Type} `{!Externals World}.

(** A round keeps the addresses of the accepted records distinct. *)
Lemma execute_urls_unique (s : AgentState) (w : World) :
  urls_unique (current_results s) ->
  urls_unique (current_results (_execute_search s w).1).
Proof.
  unfold _execute_search, bind; simpl.
  apply (foldM_rel
           (fun a b => urls_unique (current_results a) ->
                       urls_unique (current_results b))).
  - intros a Ha; exact Ha.
  - intros a b c Hab Hbc Ha. apply Hbc, Hab, Ha.
  - intros a q w0 Ha. unfold try_query, bind; simpl.
    apply add_unique_urls, Ha.
Qed.

(** So does every node of the graph, hence a whole run: no two records of
    the final results have the same non-empty [url]. *)
Lemma run_node_urls_unique (n : node) (s : AgentState) (w : World) :
  urls_unique (current_results s) ->
  urls_unique (current_results (run_node n s w).1).
Proof.
  intros Hs. destruct n; simpl.
  - pose proof (analyze_frame s w) as (_&Hr&_). simpl in Hr. rewrite Hr. exact Hs.
  - pose proof (generate_frame s w) as (_&_&Hr&_). simpl in Hr. rewrite Hr. exact Hs.
  - apply execute_urls_unique, Hs.
  - pose proof (validate_frame s) as (Hr&_). rewrite Hr. exact Hs.
  - pose proof (refine_frame s w) as (_&_&Hr&_). simpl in Hr. rewrite Hr. exact Hs.
  - unfold slice_to. destruct (0 <=? target_count s); apply urls_unique_take, Hs.
  - exact Hs.
Qed.

Lemma graph_run_urls_unique (steps : nat) :
  forall (n : node) (s : AgentState) (w : World) tr sf w',
    graph_run steps n s w = (Some (tr, sf), w') ->
    urls_unique (current_results s) ->
    urls_unique (current_results sf).
Proof.
  induction steps as [|steps IH]; intros n s w tr sf w' Hrun Hs.
  - destruct n; simpl in Hrun; try discriminate.
    injection Hrun as <- <- <-. exact Hs.
  - destruct (decide (n = END)) as [->|Hend].
    { rewrite graph_run_END in Hrun. injection Hrun as <- <- <-. exact Hs. }
    rewrite graph_run_step in Hrun by assumption. cbv zeta in Hrun.
    pose proof (run_node_urls_unique n s w Hs) as Hs1.
    destruct (run_node n s w) as [s1 w1]; cbn [fst snd] in *.
    destruct (graph_run steps (next_node n s1) s1 w1) as [[[tr1 sf1]|] w2] eqn:Hrest;
      cbn [fst snd] in Hrun; [|discriminate].
    injection Hrun as <- <- <-.
    apply (IH _ _ _ _ _ _ Hrest Hs1).
Qed.

Lemma run_agent_urls_unique (steps : nat) (g : string) (K : Z) (w : World) tr sf w' :
  run_agent steps g K w = (Some (tr, sf), w') ->
  urls_unique (current_results sf).
Proof.
  intros Hrun. apply (graph_run_urls_unique _ _ _ _ _ _ _ Hrun).
  apply urls_unique_nil.
Qed.

End UniqueAddresses.

(** * Further properties of the code *)

(** ** What a round does to the ledger and to the results *)

Lemma add_unique_prefix (results : list record) :
  forall current, current `prefix_of` add_unique current results.
Proof.
  unfold add_unique.
  induction results as [|r results IH]; intros current; simpl; [reflexivity|].
  destruct (is_unique _ _ current); [|apply IH].
  transitivity (current ++ [r]); [apply prefix_app_r; reflexivity | apply IH].
Qed.

Lemma add_unique_length (results : list record) :
  forall current,
    (length (add_unique current results) <= length current + length results)%nat.
Proof.
  unfold add_unique.
  induction results as [|r results IH]; intros current; simpl; [lia|].
  destruct (is_unique _ _ current).
  - specialize (IH (current ++ [r])). rewrite length_app in IH. simpl in IH. lia.
  - specialize (IH current). lia.
Qed.

Section Round.

Context {World : Type} `{!Externals World}.

Lemma round_attempted (l : list string) :
  forall (s : AgentState) (w : World),
    attempted_sources (foldM try_query l s w).1 = attempted_sources s ++ l.
Proof.
  induction l as [|q l IH]; intros s w; simpl.
  - rewrite app_nil_r. reflexivity.
  - unfold bind. rewrite IH. simpl. rewrite <- app_assoc. reflexivity.
Qed.

Lemma untried_spec (s : AgentState) (q : string) :
  q ∈ untried s <-> q ∈ search_queries s /\ q ∉ attempted_sources s.
Proof. unfold untried. rewrite list_elem_of_filter. tauto. Qed.

Lemma elem_of_take_3_untried (s : AgentState) (q : string) :
  q ∈ take 3 (untried s) -> q ∈ search_queries s /\ q ∉ attempted_sources s.
Proof.
  intros Hq. apply untried_spec.
  apply (subseteq_take 3 (untried s)), Hq.
Qed.

(** X1. Whatever the searches return, a round marks as attempted exactly
    the queries it selected: the first three queries of the ledger not yet
    attempted, appended in ledger order. So at most three queries are
    marked per round, none of them was attempted before, all of them are in
    the ledger, and when no query is left untried the round marks none. *)
Theorem round_marks_selected_queries (s : AgentState) (w : World) :
  attempted_sources (_execute_search s w).1
    = attempted_sources s ++ take 3 (untried s) /\
  (length (attempted_sources (_execute_search s w).1)
     <= length (attempted_sources s) + 3)%nat /\
  (forall q, q ∈ take 3 (untried s) ->
             q ∈ search_queries s /\ q ∉ attempted_sources s) /\
  (untried s = [] ->
   attempted_sources (_execute_search s w).1 = attempted_sources s).
Proof.
  assert (Heq : attempted_sources (_execute_search s w).1
                = attempted_sources s ++ take 3 (untried s)).
  { unfold _execute_search, bind; simpl. apply round_attempted. }
  split; [exact Heq|]. split; [|split].
  - rewrite Heq, length_app, length_take. lia.
  - apply elem_of_take_3_untried.
  - intros Hnone. rewrite Heq, Hnone. simpl. apply app_nil_r.
Qed.

Lemma try_query_results_prefix (s : AgentState) (q : string) (w : World) :
  current_results s `prefix_of` current_results (try_query s q w).1.
Proof. unfold try_query, bind; simpl. apply add_unique_prefix. Qed.

(** X2. A round never removes, replaces or reorders an accepted record:
    the results before the round are a prefix of the results after it, so
    the number of results does not decrease. *)
Theorem round_keeps_results_as_prefix (s : AgentState) (w : World) :
  current_results s `prefix_of` current_results (_execute_search s w).1 /\
  (length (current_results s)
     <= length (current_results (_execute_search s w).1))%nat.
Proof.
  assert (Hp : current_results s `prefix_of` current_results (_execute_search s w).1).
  { unfold _execute_search, bind; simpl.
    apply (foldM_rel
             (fun a b => current_results a `prefix_of` current_results b)).
    - intros a. reflexivity.
    - intros a b c Hab Hbc. transitivity (current_results b); assumption.
    - intros a q w0. apply try_query_results_prefix. }
  split; [exact Hp|]. apply prefix_length, Hp.
Qed.

Lemma process_hit_length (g : string) (results : list record) (h : hit) (w : World) :
  (length (process_hit g results h w).1 <= length results + 1)%nat.
Proof.
  unfold process_hit.
  destruct (_is_relevant_result h g); [|simpl; lia].
  destruct (String.eqb (get_or h "href" EmptyString) EmptyString); [simpl; lia|].
  unfold bind.
  destruct (String.eqb (crawler (get_or h "href" EmptyString) w).1 EmptyString);
    simpl; [lia|].
  rewrite length_app. simpl. lia.
Qed.

Lemma process_hits_length (g : string) (hits : list hit) :
  forall (results : list record) (w : World),
    (length (foldM (process_hit g) hits results w).1
       <= length results + length hits)%nat.
Proof.
  induction hits as [|h hits IH]; intros results w; simpl; [lia|].
  unfold bind.
  pose proof (process_hit_length g results h w).
  specialize (IH (process_hit g results h w).1 (process_hit g results h w).2).
  lia.
Qed.

Lemma search_length (q : string) (w : World) :
  respects_page_size -> (length (search q 5 w).1 <= 5)%nat.
Proof.
  intros Hpage. unfold search, bind.
  pose proof (Hpage q 5 w) as Hq.
  destruct (ddgs_text q 5 w) as [[e|hits] w1]; simpl in *; [lia|].
  specialize (Hq hits ltac:(lia) eq_refl). lia.
Qed.

Lemma perform_search_fold_length (g : string) (l : list string) :
  respects_page_size ->
  forall (results : list record) (w : World),
    (length
       (foldM
          (fun results enhanced_query =>
             let* search_results := search enhanced_query 5 in
             foldM (process_hit g) search_results results)
          l results w).1
     <= length results + 5 * length l)%nat.
Proof.
  intros Hpage. induction l as [|q l IH]; intros results w; simpl; [lia|].
  unfold bind at 1. unfold bind at 2.
  pose proof (search_length q w Hpage) as Hs.
  pose proof (process_hits_length g (search q 5 w).1 results (search q 5 w).2) as Hh.
  match goal with |- (length (foldM _ _ ?r ?w').1 <= _)%nat =>
    specialize (IH r w') end.
  lia.
Qed.

Lemma perform_search_length (query g : string) (w : World) :
  respects_page_size -> (length (_perform_search query g w).1 <= 10)%nat.
Proof.
  intros Hpage. unfold _perform_search.
  pose proof (perform_search_fold_length g (take 2 (enhanced_queries query g))
                Hpage [] w) as Hl.
  rewrite length_take in Hl. cbn [length] in Hl. lia.
Qed.

Lemma round_results_length (l : list string) :
  respects_page_size ->
  forall (s : AgentState) (w : World),
    (length (current_results (foldM try_query l s w).1)
     <= length (current_results s) + 10 * length l)%nat.
Proof.
  intros Hpage. induction l as [|q l IH]; intros s w; simpl; [lia|].
  unfold bind.
  specialize (IH (try_query s q w).1 (try_query s q w).2).
  assert (Hq : (length (current_results (try_query s q w).1)
                <= length (current_results s) + 10)%nat).
  { unfold try_query, bind; simpl.
    pose proof (add_unique_length (_perform_search q (goal s) w).1 (current_results s)).
    pose proof (perform_search_length q (goal s) w Hpage). lia. }
  lia.
Qed.

(** X3. When the search provider returns no more hits than the page size
    it is asked for, a round adds at most 30 records: three queries, two
    searches each, five hits a search, one record a hit at most. *)
Theorem round_adds_at_most_thirty (s : AgentState) (w : World) :
  respects_page_size ->
  (length (current_results (_execute_search s w).1)
   <= length (current_results s) + 30)%nat.
Proof.
  intros Hpage. unfold _execute_search, bind; simpl.
  pose proof (round_results_length (take 3 (untried s)) Hpage s w) as Hl.
  rewrite length_take in Hl. lia.
Qed.

End Round.

Lemma round_marks_selected_queries_witness :
  attempted_sources (@_execute_search unit PagedSearch.env PagedSearch.start tt).1
    = attempted_sources PagedSearch.start ++ take 3 (untried PagedSearch.start) /\
  ("developer tools" ∈ search_queries PagedSearch.start /\
   "developer tools" ∉ attempted_sources PagedSearch.start) /\
  attempted_sources (@_execute_search unit Scenario.offline TwelveFound.short tt).1
    = attempted_sources TwelveFound.short.
Proof.
  split; [|split].
  - apply (proj1 (@round_marks_selected_queries unit PagedSearch.env
                    PagedSearch.start tt)).
  - apply (proj1 (proj2 (proj2 (@round_marks_selected_queries unit PagedSearch.env
                                  PagedSearch.start tt)))).
    vm_compute. apply list_elem_of_here.
  - apply (proj2 (proj2 (proj2 (@round_marks_selected_queries unit Scenario.offline
                                  TwelveFound.short tt)))).
    reflexivity.
Defined.

Lemma paged_search_respects_page_size : @respects_page_size unit PagedSearch.env.
Proof.
  intros q n w hits Hn Hhits. simpl in Hhits. injection Hhits as <-.
  rewrite length_take. simpl. lia.
Defined.

Lemma round_adds_at_most_thirty_witness :
  (length (current_results
             (@_execute_search unit PagedSearch.env PagedSearch.start tt).1)
   <= length (current_results PagedSearch.start) + 30)%nat.
Proof.
  apply (@round_adds_at_most_thirty unit PagedSearch.env PagedSearch.start tt).
  exact paged_search_respects_page_size.
Defined.

(** ** The records built from hits *)

Section Records.

Context {World : Type} `{!Externals World}.

Lemma set_if_found_other (key k : string) (found : option string) (d : record) :
  k <> key -> set_if_found key found d !! k = d !! k.
Proof.
  intros Hk. unfold set_if_found. destruct found; [|reflexivity].
  apply lookup_insert_ne. congruence.
Qed.

Lemma job_info_other (content url k : string) :
  k ∉ extracted_keys ->
  _extract_job_info_from_content content url !! k = None.
Proof.
  unfold extracted_keys. rewrite !not_elem_of_cons. intros (?&?&?&?&?&?&?&_).
  unfold _extract_job_info_from_content.
  rewrite lookup_insert_ne by congruence.
  rewrite !set_if_found_other by congruence.
  apply lookup_empty.
Qed.

(** Extraction writes its own keys only. *)
Lemma with_extracted_other (g content url k : string) (p : record) :
  k ∉ extracted_keys ->
  with_extracted g content url p !! k = p !! k.
Proof.
  intros Hk. pose proof (job_info_other content url k Hk) as Hjob.
  revert Hk. unfold extracted_keys. rewrite !not_elem_of_cons.
  intros (?&?&?&?&?&?&?&_).
  unfold with_extracted.
  destruct (Str.any_in ["email"; "contact"; "recruiter"] _).
  - destruct (_extract_emails_from_content content); [reflexivity|].
    rewrite !lookup_insert_ne by congruence. reflexivity.
  - destruct (Str.any_in ["job"; "career"; "position"; "hiring"] _).
    + rewrite lookup_union_r by exact Hjob. reflexivity.
    + rewrite lookup_insert_ne by congruence. reflexivity.
Qed.

Lemma eqb_empty_false (u : string) : String.eqb u EmptyString = false -> u <> EmptyString.
Proof. intros He ->. discriminate. Qed.

Lemma from_hit_with_extracted (g content : string) (h : hit) :
  String.eqb (get_or h "href" EmptyString) EmptyString = false ->
  from_hit (with_extracted g content (get_or h "href" EmptyString) (base_result h)).
Proof.
  intros Hurl. unfold from_hit, has_url.
  rewrite !with_extracted_other
    by (unfold extracted_keys; rewrite !not_elem_of_cons;
        repeat split; try discriminate; apply not_elem_of_nil).
  unfold base_result. split; [|split; [|split]].
  - exists (get_or h "href" EmptyString). split; [|apply eqb_empty_false, Hurl].
    rewrite lookup_insert_ne by discriminate. apply lookup_insert_eq.
  - do 3 (rewrite lookup_insert_ne by discriminate). apply lookup_insert_eq.
  - rewrite lookup_insert_eq. eexists; reflexivity.
  - do 2 (rewrite lookup_insert_ne by discriminate). rewrite lookup_insert_eq.
    eexists; reflexivity.
Qed.

Lemma process_hit_from_hit (g : string) (results : list record) (h : hit) (w : World) :
  Forall from_hit results -> Forall from_hit (process_hit g results h w).1.
Proof.
  intros Hres. unfold process_hit.
  destruct (_is_relevant_result h g); [|exact Hres].
  destruct (String.eqb (get_or h "href" EmptyString) EmptyString) eqn:Hurl;
    [exact Hres|].
  unfold bind.
  destruct (String.eqb (crawler (get_or h "href" EmptyString) w).1 EmptyString);
    simpl; [exact Hres|].
  apply Forall_app. split; [exact Hres|].
  apply Forall_singleton. apply from_hit_with_extracted, Hurl.
Qed.

Lemma process_hits_from_hit (g : string) (hits : list hit) :
  forall (results : list record) (w : World),
    Forall from_hit results -> Forall from_hit (foldM (process_hit g) hits results w).1.
Proof.
  induction hits as [|h hits IH]; intros results w Hres; simpl; [exact Hres|].
  unfold bind. apply IH. apply process_hit_from_hit, Hres.
Qed.

Lemma perform_search_from_hit (query g : string) (w : World) :
  Forall from_hit (_perform_search query g w).1.
Proof.
  unfold _perform_search.
  generalize (take 2 (enhanced_queries query g)) as l.
  assert (Hgen : forall l (results : list record) (w0 : World),
            Forall from_hit results ->
            Forall from_hit
              (foldM
                 (fun results enhanced_query =>
                    let* search_results := search enhanced_query 5 in
                    foldM (process_hit g) search_results results)
                 l results w0).1).
  { induction l as [|q l IH]; intros results w0 Hres; simpl; [exact Hres|].
    unfold bind at 1. unfold bind at 2.
    apply IH. apply process_hits_from_hit, Hres. }
  intros l. apply Hgen. constructor.
Qed.







End Records.


(** ** Invariants of a whole run *)

Lemma add_unique_Forall (P : record -> Prop) (results : list record) :
  forall current,
    Forall P current -> Forall P results -> Forall P (add_unique current results).
Proof.
  unfold add_unique.
  induction results as [|r results IH]; intros current Hc Hr; simpl; [exact Hc|].
  apply Forall_cons in Hr as [Hr Hrs].
  apply IH; [|exact Hrs].
  destruct (is_unique _ _ current); [|exact Hc].
  apply Forall_app. split; [exact Hc | apply Forall_singleton, Hr].
Qed.

Section RunInvariants.

Context {World : Type} `{!Externals World}.

(** A property of the state at each node that every step hands on to the
    next node holds at [END]. *)
Lemma graph_run_pre (Pre : node -> AgentState -> Prop) :
  (forall n s w, n <> END -> Pre n s ->
                 Pre (next_node n (run_node n s w).1) (run_node n s w).1) ->
  forall (steps : nat) (n : node) (s : AgentState) (w : World) tr sf w',
    graph_run steps n s w = (Some (tr, sf), w') -> Pre n s -> Pre END sf.
Proof.
  intros Hstep. induction steps as [|steps IH]; intros n s w tr sf w' Hrun Hpre.
  - destruct n; simpl in Hrun; try discriminate.
    injection Hrun as <- <- <-. exact Hpre.
  - destruct (decide (n = END)) as [->|Hend].
    { rewrite graph_run_END in Hrun. injection Hrun as <- <- <-. exact Hpre. }
    rewrite graph_run_step in Hrun by assumption. cbv zeta in Hrun.
    pose proof (Hstep n s w Hend Hpre) as Hnext.
    destruct (run_node n s w) as [s1 w1]; cbn [fst snd] in *.
    destruct (graph_run steps (next_node n s1) s1 w1) as [[[tr1 sf1]|] w2] eqn:Hrest;
      cbn [fst snd] in Hrun; [|discriminate].
    injection Hrun as <- <- <-.
    apply (IH _ _ _ _ _ _ Hrest Hnext).
Qed.

Lemma execute_from_hit (s : AgentState) (w : World) :
  Forall from_hit (current_results s) ->
  Forall from_hit (current_results (_execute_search s w).1).
Proof.
  unfold _execute_search, bind; simpl.
  apply (foldM_rel
           (fun a b => Forall from_hit (current_results a) ->
                       Forall from_hit (current_results b))).
  - intros a Ha; exact Ha.
  - intros a b c Hab Hbc Ha. apply Hbc, Hab, Ha.
  - intros a q w0 Ha. unfold try_query, bind; simpl.
    apply add_unique_Forall; [exact Ha | apply perform_search_from_hit].
Qed.

Lemma run_node_from_hit (n : node) (s : AgentState) (w : World) :
  Forall from_hit (current_results s) ->
  Forall from_hit (current_results (run_node n s w).1).
Proof.
  intros Hs. destruct n; simpl.
  - pose proof (analyze_frame s w) as (_&Hr&_). simpl in Hr. rewrite Hr. exact Hs.
  - pose proof (generate_frame s w) as (_&_&Hr&_). simpl in Hr. rewrite Hr. exact Hs.
  - apply execute_from_hit, Hs.
  - pose proof (validate_frame s) as (Hr&_). rewrite Hr. exact Hs.
  - pose proof (refine_frame s w) as (_&_&Hr&_). simpl in Hr. rewrite Hr. exact Hs.
  - unfold slice_to. destruct (0 <=? target_count s); apply Forall_take, Hs.
  - exact Hs.
Qed.

(** X5. In the state a run returns, every result carries a non-empty
    [url] and no two results have the same [url]: the uniqueness test,
    applied to records that all come from hits with an address, keeps the
    addresses pairwise distinct through every round and through
    finalization. *)
Theorem run_results_have_distinct_addresses
    (steps : nat) (g : string) (K : Z) (w : World) tr sf w' :
  run_agent steps g K w = (Some (tr, sf), w') ->
  (forall r, r ∈ current_results sf -> has_url r) /\
  (forall (i j : nat) (r1 r2 : record),
     current_results sf !! i = Some r1 -> current_results sf !! j = Some r2 ->
     i <> j -> r1 !! "url" <> r2 !! "url").
Proof.
  intros Hrun. unfold run_agent in Hrun.
  assert (Hinv : Forall from_hit (current_results sf) /\
                 urls_unique (current_results sf)).
  { apply (graph_run_pre
             (fun _ s => Forall from_hit (current_results s) /\
                         urls_unique (current_results s))
             ltac:(intros n s w0 _ [Hf Hu]; split;
                   [apply run_node_from_hit, Hf | apply run_node_urls_unique, Hu])
             _ _ _ _ _ _ _ Hrun).
    split; [constructor | apply urls_unique_nil]. }
  destruct Hinv as [Hall Huniq]. rewrite Forall_forall in Hall. split.
  - intros r Hr. apply (Hall r Hr).
  - intros i j r1 r2 H1 H2 Hij Heq.
    destruct (Hall r1) as [(u&Hu&Hne) _]; [apply list_elem_of_lookup; eauto|].
    assert (Hu2 : r2 !! "url" = Some (VStr u)) by congruence.
    pose proof (Huniq i j r1 r2 (VStr u) H1 H2 Hij Hu Hu2) as Hfalse.
    simpl in Hfalse. apply negb_false_iff, String.eqb_eq in Hfalse. contradiction.
Qed.

End RunInvariants.

Lemma run_results_have_distinct_addresses_witness :
  match (@run_agent unit PagedSearch.env 20 "Find 5 developer tools" 5 tt).1 with
  | Some (_, sf) =>
      length (current_results sf) = 2%nat /\
      (forall r, r ∈ current_results sf -> has_url r) /\
      (forall (i j : nat) (r1 r2 : record),
         current_results sf !! i = Some r1 -> current_results sf !! j = Some r2 ->
         i <> j -> r1 !! "url" <> r2 !! "url")
  | None => False
  end.
Proof.
  destruct (@run_agent unit PagedSearch.env 20 "Find 5 developer tools" 5 tt)
    as [[[tr sf]|] w'] eqn:Hrun; simpl.
  - split.
    + vm_compute in Hrun. injection Hrun as _ <- _. reflexivity.
    + apply (@run_results_have_distinct_addresses unit PagedSearch.env
               20 "Find 5 developer tools" 5 tt tr sf w' Hrun).
  - vm_compute in Hrun. discriminate.
Defined.

(** ** The ledger through a run *)

Lemma NoDup_initial_templates (g : string) : NoDup (initial_templates g).
Proof.
  rewrite <- initial_templates_distinct. apply NoDup_first_appearances.
Qed.

Lemma merge_suppressing_superset (ledger new : list string) :
  ledger ⊆ merge_suppressing ledger new.
Proof. intros x Hx. unfold merge_suppressing. apply elem_of_app. left. exact Hx. Qed.

Section LedgerInvariant.

Context {World : Type} `{!Externals World}.

Lemma generate_from_empty (s : AgentState) (w : World) :
  search_queries s = [] -> attempted_sources s = [] ->
  ledger_ok (_generate_search_strategy s w).1.
Proof.
  intros Hq Ha. unfold ledger_ok.
  assert (Hatt : attempted_sources (_generate_search_strategy s w).1 = []).
  { unfold _generate_search_strategy, bind; simpl.
    destruct (loads_queries _); [exact Ha|].
    destruct (Str.contains "website" _); [exact Ha|].
    destruct (Str.contains "email" _); exact Ha. }
  rewrite Hatt. split; [|split; [constructor | intros x Hx; inversion Hx]].
  unfold _generate_search_strategy, bind; simpl.
  destruct (loads_queries _) as [new|]; simpl.
  - rewrite add_new_queries_merge. apply NoDup_merge_suppressing.
    rewrite Hq. constructor.
  - pose proof (NoDup_initial_templates (goal s)) as Hnd.
    unfold initial_templates in Hnd. rewrite Hq.
    destruct (Str.contains "website" _); [exact Hnd|].
    destruct (Str.contains "email" _); [exact Hnd|].
    simpl. rewrite Hq. constructor.
Qed.

Lemma refine_ledger_ok (s : AgentState) (w : World) :
  ledger_ok s -> ledger_ok (_refine_strategy s w).1.
Proof.
  intros (Hq&Ha&Hsub). unfold ledger_ok.
  assert (Hled : exists new,
            search_queries (_refine_strategy s w).1
              = merge_suppressing (search_queries s) new /\
            attempted_sources (_refine_strategy s w).1 = attempted_sources s).
  { unfold _refine_strategy, bind; simpl.
    destruct (loads_queries _) as [new|]; simpl.
    - exists new. rewrite add_new_queries_merge. split; reflexivity.
    - exists (refinement_templates (goal s)).
      rewrite refine_fallback_loop, add_new_queries_merge. split; reflexivity. }
  destruct Hled as (new&Hl&Hatt). rewrite Hl, Hatt.
  split; [apply NoDup_merge_suppressing, Hq|]. split; [exact Ha|].
  intros x Hx. apply merge_suppressing_superset, Hsub, Hx.
Qed.

Lemma execute_ledger_ok (s : AgentState) (w : World) :
  ledger_ok s -> ledger_ok (_execute_search s w).1.
Proof.
  intros (Hq&Ha&Hsub). unfold ledger_ok.
  pose proof (execute_control s w) as (_&_&Hled&_).
  assert (Hatt : attempted_sources (_execute_search s w).1
                 = attempted_sources s ++ take 3 (untried s))
    by (unfold _execute_search, bind; simpl; apply round_attempted).
  pose proof (elem_of_take_3_untried s) as Hsel.
  rewrite Hled, Hatt. split; [exact Hq|]. split.
  - apply NoDup_app. split; [exact Ha|]. split.
    + intros x Hx Hx'. apply Hsel in Hx' as [_ Hnot]. contradiction.
    + apply (sublist_NoDup _ (untried s)); [|apply sublist_take].
      unfold untried. apply NoDup_filter, Hq.
  - intros x Hx. apply elem_of_app in Hx as [Hx|Hx]; [apply Hsub, Hx|].
    apply Hsel in Hx as [Hin _]. exact Hin.
Qed.

(** X6. In the state a run returns the ledger is in order: no query
    occurs twice in [search_queries], no query occurs twice in
    [attempted_sources] (no query was searched in two rounds, nor twice in
    one), and every attempted query is a ledger query. *)
Theorem run_keeps_ledger_in_order
    (steps : nat) (g : string) (K : Z) (w : World) tr sf w' :
  run_agent steps g K w = (Some (tr, sf), w') ->
  NoDup (search_queries sf) /\ NoDup (attempted_sources sf) /\
  attempted_sources sf ⊆ search_queries sf.
Proof.
  intros Hrun. unfold run_agent in Hrun.
  apply (graph_run_pre
           (fun n s =>
              match n with
              | analyze_goal | generate_search_strategy =>
                  search_queries s = [] /\ attempted_sources s = []
              | _ => ledger_ok s
              end)) in Hrun; [exact Hrun| |split; reflexivity].
  intros n s w0 Hend Hpre. destruct n; try congruence.
  - pose proof (analyze_frame s w0) as (_&_&Hq&Ha&_). simpl in Hq, Ha.
    simpl. destruct Hpre as [Hq0 Ha0]. split; congruence.
  - destruct Hpre as [Hq0 Ha0]. simpl. apply generate_from_empty; assumption.
  - simpl. apply execute_ledger_ok, Hpre.
  - assert (Hok : ledger_ok (_validate_results s)).
    { pose proof (validate_frame s) as (_&Hq&Ha&_). unfold ledger_ok.
      rewrite Hq, Ha. exact Hpre. }
    change (run_node validate_results s w0).1 with (_validate_results s).
    rewrite next_after_validate.
    destruct (status (_validate_results s)); exact Hok.
  - simpl. apply refine_ledger_ok, Hpre.
  - simpl. pose proof (finalize_frame s) as (_&Hq&Ha&_). unfold ledger_ok.
    rewrite Hq, Ha. exact Hpre.
Qed.

End LedgerInvariant.

Lemma run_keeps_ledger_in_order_witness :
  match (@run_agent unit PagedSearch.env 20 "Find 5 developer tools" 5 tt).1 with
  | Some (_, sf) =>
      NoDup (search_queries sf) /\ NoDup (attempted_sources sf) /\
      attempted_sources sf ⊆ search_queries sf
  | None => False
  end.
Proof.
  destruct (@run_agent unit PagedSearch.env 20 "Find 5 developer tools" 5 tt)
    as [[[tr sf]|] w'] eqn:Hrun; simpl.
  - apply (@run_keeps_ledger_in_order unit PagedSearch.env
             20 "Find 5 developer tools" 5 tt tr sf w' Hrun).
  - vm_compute in Hrun. discriminate.
Defined.

(** ** How a run ends *)

Section Outcome.

Context {World : Type} `{!Externals World}.

Lemma validate_from_in_progress (s : AgentState) :
  status s = IN_PROGRESS ->
  (status (_validate_results s) = COMPLETED /\
   Z.of_nat (length (current_results (_validate_results s)))
     >= target_count (_validate_results s)) \/
  (status (_validate_results s) = FAILED /\
   Z.of_nat (length (current_results (_validate_results s)))
     < target_count (_validate_results s) /\
   iteration_count (_validate_results s) >= max_iterations (_validate_results s)) \/
  status (_validate_results s) = IN_PROGRESS.
Proof.
  intros Hs. unfold _validate_results.
  destruct (Z.geb_spec (Z.of_nat (length (current_results s))) (target_count s)).
  - left. simpl. split; [reflexivity | lia].
  - destruct (Z.geb_spec (iteration_count s) (max_iterations s)).
    + right; left. simpl. repeat split; lia.
    + right; right. exact Hs.
Qed.

Lemma finalize_exact (s : AgentState) :
  Z.of_nat (length (current_results s)) >= target_count s ->
  0 <= target_count s ->
  Z.of_nat (length (current_results (_finalize_results s))) = target_count s.
Proof.
  intros Hge Hpos. pose proof (finalize_frame s) as (_&_&_&_&_&_&Hr).
  rewrite Hr, slice_to_nonneg, length_take by assumption. lia.
Qed.

(** X7. A run with a positive [max_iterations] ends in one of two ways.
    Either its status is COMPLETED and, for a target that is not negative,
    it returns exactly [target_count] results; or its status is FAILED, it
    returns fewer results than the target, and the iteration count has
    reached [max_iterations]. *)
Theorem run_ends_completed_exact_or_failed_short
    (g : string) (K : Z) (steps : nat) (w : World) :
  0 < K ->
  (3 * Z.to_nat K + 2 <= steps)%nat ->
  exists tr sf w',
    run_agent steps g K w = (Some (tr, sf), w') /\
    ((status sf = COMPLETED /\
      (0 <= target_count sf ->
       Z.of_nat (length (current_results sf)) = target_count sf)) \/
     (status sf = FAILED /\
      Z.of_nat (length (current_results sf)) < target_count sf /\
      iteration_count sf >= max_iterations sf)).
Proof.
  intros HK Hsteps.
  destruct (run_reaches_end g K steps w HK Hsteps) as (tr&sf&w'&Hrun&_).
  exists tr, sf, w'. split; [exact Hrun|].
  unfold run_agent in Hrun. fold (run_outcome sf).
  apply (graph_run_pre
           (fun n s =>
              match n with
              | analyze_goal => True
              | finalize_results =>
                  status s = COMPLETED /\
                  Z.of_nat (length (current_results s)) >= target_count s
              | END => run_outcome s
              | _ => status s = IN_PROGRESS
              end)) in Hrun; [exact Hrun| |exact I].
  clear. intros n s w0 Hend Hpre. destruct n; try congruence.
  - pose proof (analyze_frame s w0) as (_&_&_&_&_&_&Hs). exact Hs.
  - pose proof (generate_frame s w0) as (_&_&_&Hs&_).
    change (status (_generate_search_strategy s w0).1 = IN_PROGRESS).
    cbv zeta in Hs. congruence.
  - pose proof (execute_control s w0) as (_&_&_&Hs&_).
    change (status (_execute_search s w0).1 = IN_PROGRESS). congruence.
  - change (run_node validate_results s w0).1 with (_validate_results s).
    rewrite next_after_validate.
    destruct (validate_from_in_progress s Hpre) as [[Hc Hge]|[(Hf&Hlt&Hit)|Hp]].
    + rewrite Hc. split; [reflexivity | assumption].
    + rewrite Hf. right. repeat split; first [assumption | reflexivity].
    + rewrite Hp. reflexivity.
  - pose proof (refine_frame s w0) as (_&_&_&Hs&_).
    change (status (_refine_strategy s w0).1 = IN_PROGRESS).
    cbv zeta in Hs. congruence.
  - destruct Hpre as [Hc Hge].
    change (run_outcome (_finalize_results s)). left.
    pose proof (finalize_frame s) as (Hs&_&_&_&_&Ht&_).
    split; [congruence|]. intros Hpos. rewrite Ht in *.
    apply finalize_exact; assumption.
Qed.

End Outcome.

Lemma run_ends_completed_exact_or_failed_short_witness :
  0 < 5 /\
  exists tr sf w',
    @run_agent unit PagedSearch.env 17 "Find 5 developer tools" 5 tt
      = (Some (tr, sf), w') /\
    ((status sf = COMPLETED /\
      (0 <= target_count sf ->
       Z.of_nat (length (current_results sf)) = target_count sf)) \/
     (status sf = FAILED /\
      Z.of_nat (length (current_results sf)) < target_count sf /\
      iteration_count sf >= max_iterations sf)).
Proof.
  split; [lia|].
  apply (@run_ends_completed_exact_or_failed_short unit PagedSearch.env
           "Find 5 developer tools" 5 17 tt); [lia | simpl; lia].
Defined.

(** ** The shape of a trace *)

Lemma refinements_refine (trace : list node) :
  refinements (refine_strategy :: trace) = S (refinements trace).
Proof. reflexivity. Qed.

Lemma refinements_other (n : node) (trace : list node) :
  n <> refine_strategy -> refinements (n :: trace) = refinements trace.
Proof.
  intros Hn. unfold refinements. rewrite filter_cons.
  destruct (decide (n = refine_strategy)); [contradiction | reflexivity].
Qed.

Section TraceShape.

Context {World : Type} `{!Externals World}.

Lemma trace_counts (steps : nat) :
  forall (n : node) (s : AgentState) (w : World) tr sf w',
    graph_run steps n s w = (Some (tr, sf), w') ->
    rounds tr =
      (refinements tr +
       match n with
       | analyze_goal | generate_search_strategy | execute_search => 1
       | _ => 0
       end)%nat /\
    (n <> analyze_goal -> analyze_goal ∉ tr) /\
    (n <> analyze_goal -> n <> generate_search_strategy ->
     generate_search_strategy ∉ tr).
Proof.
  induction steps as [|steps IH]; intros n s w tr sf w' Hrun.
  - destruct n; simpl in Hrun; try discriminate.
    injection Hrun as <- <- <-.
    split; [reflexivity|]. split; intros; apply not_elem_of_nil.
  - destruct (decide (n = END)) as [->|Hend].
    { rewrite graph_run_END in Hrun. injection Hrun as <- <- <-.
      split; [reflexivity|]. split; intros; apply not_elem_of_nil. }
    rewrite graph_run_step in Hrun by assumption. cbv zeta in Hrun.
    destruct (run_node n s w) as [s1 w1]; cbn [fst snd] in Hrun.
    destruct (graph_run steps (next_node n s1) s1 w1) as [[[tr1 sf1]|] w2] eqn:Hrest;
      cbn [fst snd] in Hrun; [|discriminate].
    injection Hrun as <- <- <-.
    destruct (IH _ _ _ _ _ _ Hrest) as (Hcount&Hna&Hng).
    assert (Hnext_a : next_node n s1 <> analyze_goal).
    { destruct n; try (simpl; discriminate).
      rewrite next_after_validate. destruct (status s1); discriminate. }
    assert (Hnext_g : n <> analyze_goal -> next_node n s1 <> generate_search_strategy).
    { intros Hn. destruct n; try (simpl; discriminate); try congruence.
      rewrite next_after_validate. destruct (status s1); discriminate. }
    split; [|split].
    + destruct n; try congruence.
      * rewrite rounds_other, refinements_other by discriminate. exact Hcount.
      * rewrite rounds_other, refinements_other by discriminate. exact Hcount.
      * rewrite rounds_execute, refinements_other by discriminate.
        change (next_node execute_search s1) with validate_results in Hcount.
        cbv beta iota in Hcount. lia.
      * rewrite rounds_other, refinements_other by discriminate.
        rewrite next_after_validate in Hcount.
        destruct (status s1); cbv beta iota in Hcount; lia.
      * rewrite rounds_other, refinements_refine by discriminate.
        change (next_node refine_strategy s1) with execute_search in Hcount.
        cbv beta iota in Hcount. lia.
      * rewrite rounds_other, refinements_other by discriminate.
        change (next_node finalize_results s1) with END in Hcount.
        cbv beta iota in Hcount. lia.
    + intros Hn. apply not_elem_of_cons. split; [congruence | apply Hna, Hnext_a].
    + intros Hn Hn'. apply not_elem_of_cons. split; [congruence|].
      apply Hng; [apply Hnext_a | apply Hnext_g, Hn].
Qed.

(** X8. The trace of a run begins with goal analysis and the initial
    strategy, and neither runs again; every round after the first is paid
    for by one refinement step, so the number of refinement steps is the
    number of rounds minus one, whether or not untried queries were left. *)
Theorem run_trace_shape
    (steps : nat) (g : string) (K : Z) (w : World) tr sf w' :
  run_agent steps g K w = (Some (tr, sf), w') ->
  exists rest,
    tr = analyze_goal :: generate_search_strategy :: rest /\
    (analyze_goal ∉ rest) /\ (generate_search_strategy ∉ rest) /\
    rounds tr = (refinements tr + 1)%nat.
Proof.
  intros Hrun. pose proof (trace_counts _ _ _ _ _ _ _ Hrun) as (Hcount&_&_).
  unfold run_agent in Hrun.
  destruct steps as [|steps]; [discriminate|].
  rewrite graph_run_step in Hrun by discriminate. cbv zeta in Hrun.
  destruct (run_node analyze_goal (initial_state g K) w) as [s1 w1];
    cbn [fst snd] in Hrun.
  change (next_node analyze_goal s1) with generate_search_strategy in Hrun.
  destruct steps as [|steps]; [discriminate|].
  rewrite graph_run_step in Hrun by discriminate. cbv zeta in Hrun.
  destruct (run_node generate_search_strategy s1 w1) as [s2 w2];
    cbn [fst snd] in Hrun.
  change (next_node generate_search_strategy s2) with execute_search in Hrun.
  destruct (graph_run steps execute_search s2 w2) as [[[tr2 sf2]|] w3] eqn:Hrest;
    cbn [fst snd] in Hrun; [|discriminate].
  injection Hrun as <- <- <-.
  exists tr2. split; [reflexivity|].
  destruct (trace_counts _ _ _ _ _ _ _ Hrest) as (_&Hna&Hng).
  split; [apply Hna; discriminate|].
  split; [apply Hng; discriminate|]. exact Hcount.
Qed.

End TraceShape.

Lemma run_trace_shape_witness :
  match (@run_agent unit PagedSearch.env 20 "Find 5 developer tools" 5 tt).1 with
  | Some (tr, _) =>
      exists rest,
        tr = analyze_goal :: generate_search_strategy :: rest /\
        (analyze_goal ∉ rest) /\ (generate_search_strategy ∉ rest) /\
        rounds tr = (refinements tr + 1)%nat
  | None => False
  end.
Proof.
  destruct (@run_agent unit PagedSearch.env 20 "Find 5 developer tools" 5 tt)
    as [[[tr sf]|] w'] eqn:Hrun; simpl.
  - apply (@run_trace_shape unit PagedSearch.env
             20 "Find 5 developer tools" 5 tt tr sf w' Hrun).
  - vm_compute in Hrun. discriminate.
Defined.

(** ** The uniqueness test on a batch offered again *)

Lemma is_unique_collides (url email : value) (current : list record) :
  is_unique url email current = negb (existsb (collides url email) current).
Proof.
  induction current as [|r current IH]; simpl; [reflexivity|].
  unfold collides at 1.
  destruct (truthy url && bool_decide (r !! "url" = Some url)); [reflexivity|].
  destruct (truthy email && bool_decide (r !! "email" = Some email));
    [reflexivity|].
  simpl. exact IH.
Qed.

Lemma truthy_get_or (r : record) (k : string) :
  truthy (get_or r k (VStr EmptyString)) = true ->
  r !! k = Some (get_or r k (VStr EmptyString)).
Proof.
  unfold get_or. destruct (r !! k); simpl; [reflexivity | discriminate].
Qed.

Lemma keyed_collides_with_itself (r : record) :
  keyed r ->
  collides (get_or r "url" (VStr EmptyString))
    (get_or r "email" (VStr EmptyString)) r = true.
Proof.
  intros [Hu|He]; unfold collides.
  - rewrite Hu. rewrite (bool_decide_eq_true_2 _ (truthy_get_or r "url" Hu)).
    reflexivity.
  - rewrite He. rewrite (bool_decide_eq_true_2 _ (truthy_get_or r "email" He)).
    simpl. apply orb_true_r.
Qed.

Lemma existsb_prefix {A} (f : A -> bool) (l k : list A) :
  l `prefix_of` k -> existsb f l = true -> existsb f k = true.
Proof.
  intros [t ->] Hl. rewrite existsb_app, Hl. reflexivity.
Qed.

Lemma add_unique_cons (current : list record) (r : record) (results : list record) :
  add_unique current (r :: results) =
    add_unique
      (if is_unique (get_or r "url" (VStr EmptyString))
            (get_or r "email" (VStr EmptyString)) current
       then current ++ [r] else current)
      results.
Proof. reflexivity. Qed.

Lemma add_unique_covers (results : list record) :
  forall current r,
    r ∈ results -> keyed r ->
    existsb (collides (get_or r "url" (VStr EmptyString))
               (get_or r "email" (VStr EmptyString)))
      (add_unique current results) = true.
Proof.
  induction results as [|r0 results IH]; intros current r Hin Hkey.
  - apply elem_of_nil in Hin. contradiction.
  - rewrite add_unique_cons.
    apply elem_of_cons in Hin as [->|Hin]; [|apply IH; assumption].
    apply (existsb_prefix _ _ _ (add_unique_prefix results _)).
    rewrite is_unique_collides.
    destruct (existsb _ current) eqn:Hex; simpl; [exact Hex|].
    rewrite existsb_app. simpl.
    rewrite (keyed_collides_with_itself r0 Hkey). apply orb_true_r.
Qed.

Lemma add_unique_all_colliding (results : list record) (current : list record) :
  (forall r, r ∈ results ->
     existsb (collides (get_or r "url" (VStr EmptyString))
                (get_or r "email" (VStr EmptyString))) current = true) ->
  add_unique current results = current.
Proof.
  induction results as [|r0 results IH]; intros Hall; [reflexivity|].
  rewrite add_unique_cons, is_unique_collides.
  rewrite (Hall r0 (list_elem_of_here r0 results)). simpl.
  apply IH. intros r Hr. apply Hall. apply list_elem_of_further, Hr.
Qed.

Lemma add_unique_again (current results : list record) :
  Forall keyed results ->
  add_unique (add_unique current results) results = add_unique current results.
Proof.
  intros Hkeyed. apply add_unique_all_colliding. intros r Hr.
  apply add_unique_covers; [exact Hr|].
  rewrite Forall_forall in Hkeyed. apply Hkeyed, Hr.
Qed.

Lemma from_hit_keyed (r : record) : from_hit r -> keyed r.
Proof.
  intros [(u&Hu&Hne) _]. left. unfold get_or. rewrite Hu. simpl.
  apply negb_true_iff, String.eqb_neq, Hne.
Qed.

Section OfferedAgain.

Context {World : Type} `{!Externals World}.

(** X9. A batch of records offered to the uniqueness test a second time
    adds nothing, provided each record has something the test can compare
    (a non-empty [url] or a non-empty [email]): whatever the accepted
    records were before, accepting the batch twice gives the same results
    as accepting it once. This holds for every batch [_perform_search]
    returns, so a later query that finds the same pages adds no record. *)
Theorem batch_offered_again_adds_nothing
    (current results : list record) (query g : string) (w : World) :
  (Forall keyed results ->
   add_unique (add_unique current results) results = add_unique current results) /\
  add_unique (add_unique current (_perform_search query g w).1)
    (_perform_search query g w).1
  = add_unique current (_perform_search query g w).1.
Proof.
  split; [apply add_unique_again|].
  apply add_unique_again.
  eapply Forall_impl; [apply perform_search_from_hit | apply from_hit_keyed].
Qed.

End OfferedAgain.

Lemma fallback_results_keyed (g : string) : Forall keyed (_get_fallback_results g).
Proof.
  unfold _get_fallback_results.
  destruct (_ && _); [repeat constructor; left; reflexivity|].
  destruct (_ && _); [repeat constructor; right; reflexivity|].
  destruct (Str.contains "job" _); [repeat constructor; left; reflexivity|].
  constructor.
Qed.

(** X10. For every goal the mock results of [_get_fallback_results] are
    at most three records, each with a non-empty [url] or a non-empty
    [email]; so the uniqueness test accepts them once: offering the same
    mock results again, as a failure on every query would, leaves the
    results as they are. *)
Theorem fallback_results_accepted_once (g : string) (current : list record) :
  (length (_get_fallback_results g) <= 3)%nat /\
  Forall keyed (_get_fallback_results g) /\
  add_unique (add_unique current (_get_fallback_results g)) (_get_fallback_results g)
  = add_unique current (_get_fallback_results g).
Proof.
  split; [|split; [apply fallback_results_keyed|]].
  - unfold _get_fallback_results.
    destruct (_ && _); [simpl; lia|].
    destruct (_ && _); [simpl; lia|].
    destruct (Str.contains "job" _); simpl; lia.
  - apply add_unique_again, fallback_results_keyed.
Qed.

Lemma batch_offered_again_adds_nothing_witness :
  add_unique
    (add_unique [] (_get_fallback_results "Find email of a recruiter"))
    (_get_fallback_results "Find email of a recruiter")
  = add_unique [] (_get_fallback_results "Find email of a recruiter").
Proof.
  apply (proj1 (@batch_offered_again_adds_nothing unit Scenario.offline
                  [] (_get_fallback_results "Find email of a recruiter")
                  "q" "g" tt)).
  repeat constructor; right; reflexivity.
Defined.

(** ** The searches of one query *)


(** ** The content extractor *)

Section Extractor.

Context {World : Type} `{!Externals World}.

(** X12. The addresses [_extract_emails_from_content] returns are those
    the pattern finds in the page, each once: no address is lost, none is
    invented, none is repeated, and there are no more of them than
    matches. *)
Theorem extracted_emails_are_the_matches_once (content : string) :
  NoDup (_extract_emails_from_content content) /\
  (forall e, e ∈ _extract_emails_from_content content
             <-> e ∈ re_findall email_pattern content) /\
  (length (_extract_emails_from_content content)
   <= length (re_findall email_pattern content))%nat.
Proof.
  unfold _extract_emails_from_content.
  assert (Hiff : forall e,
            e ∈ elements (list_to_set (re_findall email_pattern content) : gset string)
            <-> e ∈ re_findall email_pattern content).
  { intros e. rewrite elem_of_elements, elem_of_list_to_set. reflexivity. }
  split; [apply NoDup_elements|]. split; [exact Hiff|].
  apply submseteq_length, NoDup_submseteq; [apply NoDup_elements|].
  intros e He. apply Hiff, He.
Qed.

Lemma set_if_found_same (key : string) (found : option string) (d : record) :
  d !! key = None -> set_if_found key found d !! key = VStr <$> found.
Proof.
  intros Hd. unfold set_if_found. destruct found; simpl; [|exact Hd].
  apply lookup_insert_eq.
Qed.

Lemma first_match_none (patterns : list string) (content : string) :
  first_match patterns content = None <->
  (forall p, p ∈ patterns -> re_search p content = None).
Proof.
  induction patterns as [|p patterns IH]; simpl.
  - split; [|reflexivity]. intros _ p Hp. apply elem_of_nil in Hp. contradiction.
  - destruct (re_search p content) as [g|] eqn:Hp.
    + split; [discriminate|]. intros Hall.
      rewrite (Hall p (list_elem_of_here p patterns)) in Hp. discriminate.
    + rewrite IH. split.
      * intros Hall q Hq. apply elem_of_cons in Hq as [->|Hq];
          [exact Hp | apply Hall, Hq].
      * intros Hall q Hq. apply Hall, list_elem_of_further, Hq.
Qed.

Lemma first_match_first (before : list string) (p : string) (after : list string)
    (content g : string) :
  (forall q, q ∈ before -> re_search q content = None) ->
  re_search p content = Some g ->
  first_match (before ++ p :: after) content = Some (Str.strip g).
Proof.
  intros Hbefore Hp. induction before as [|q before IH]; simpl.
  - rewrite Hp. reflexivity.
  - rewrite (Hbefore q (list_elem_of_here q before)).
    apply IH. intros q' Hq'. apply Hbefore, list_elem_of_further, Hq'.
Qed.

Lemma job_info_lookup (content url key : string) (patterns : list string) :
  (key, patterns) ∈ [("job_title", title_patterns); ("company", company_patterns);
                     ("location", location_patterns)] ->
  _extract_job_info_from_content content url !! key
    = VStr <$> first_match patterns content.
Proof.
  intros Hin. unfold _extract_job_info_from_content.
  repeat (apply elem_of_cons in Hin as [Heq|Hin];
          [injection Heq as -> ->|]).
  - rewrite lookup_insert_ne by discriminate.
    rewrite !set_if_found_other by discriminate.
    apply set_if_found_same, lookup_empty.
  - rewrite lookup_insert_ne by discriminate.
    rewrite set_if_found_other by discriminate.
    apply set_if_found_same.
    rewrite set_if_found_other by discriminate. apply lookup_empty.
  - rewrite lookup_insert_ne by discriminate.
    apply set_if_found_same.
    rewrite !set_if_found_other by discriminate. apply lookup_empty.
  - apply elem_of_nil in Hin. contradiction.
Qed.

(** X13. [_extract_job_info_from_content] always sets [job_url] to the
    address. For each of [job_title], [company] and [location], with its
    own list of patterns: the field is absent exactly when [re.search]
    finds none of the patterns in the page; and when a pattern matches and
    no pattern before it in the list does, the field is the first group of
    that match with its leading and trailing blanks removed. No other key
    is written. *)
Theorem job_info_fields (content url : string) :
  _extract_job_info_from_content content url !! "job_url" = Some (VStr url) /\
  (forall key patterns,
     (key, patterns) ∈ [("job_title", title_patterns);
                        ("company", company_patterns);
                        ("location", location_patterns)] ->
     (_extract_job_info_from_content content url !! key = None <->
      (forall p, p ∈ patterns -> re_search p content = None)) /\
     (forall before p after g,
        patterns = before ++ p :: after ->
        (forall q, q ∈ before -> re_search q content = None) ->
        re_search p content = Some g ->
        _extract_job_info_from_content content url !! key
          = Some (VStr (Str.strip g)))) /\
  (forall k, k ∉ ["job_title"; "company"; "location"; "job_url"] ->
             _extract_job_info_from_content content url !! k = None).
Proof.
  split; [|split].
  - unfold _extract_job_info_from_content. apply lookup_insert_eq.
  - intros key patterns Hin.
    rewrite (job_info_lookup content url key patterns Hin). split.
    + rewrite <- first_match_none.
      destruct (first_match patterns content); simpl; split; congruence.
    + intros before p after g -> Hbefore Hp.
      rewrite (first_match_first before p after content g Hbefore Hp).
      reflexivity.
  - intros k. rewrite !not_elem_of_cons. intros (?&?&?&?&_).
    unfold _extract_job_info_from_content.
    rewrite lookup_insert_ne by congruence.
    rewrite !set_if_found_other by congruence.
    apply lookup_empty.
Qed.

End Extractor.

Lemma extracted_emails_are_the_matches_once_witness :
  "a@b.com" ∈ @_extract_emails_from_content unit Mailbox.env Mailbox.page /\
  @_extract_emails_from_content unit Mailbox.env Mailbox.page = ["a@b.com"].
Proof.
  split; [|vm_compute; reflexivity].
  apply (proj1 (proj2 (@extracted_emails_are_the_matches_once unit Mailbox.env
                         Mailbox.page))).
  vm_compute. apply list_elem_of_here.
Defined.

Lemma job_info_fields_witness :
  @_extract_job_info_from_content unit Mailbox.env Mailbox.job_page "https://j.example"
    !! "content" = None /\
  @_extract_job_info_from_content unit Mailbox.env Mailbox.job_page "https://j.example"
    !! "job_title" = Some (VStr "Engineer") /\
  (@_extract_job_info_from_content unit Mailbox.env Mailbox.job_page "https://j.example"
     !! "location" = None <->
   (forall p, p ∈ location_patterns ->
              @re_search unit Mailbox.env p Mailbox.job_page = None)).
Proof.
  split; [|split].
  - apply (proj2 (proj2
             (@job_info_fields unit Mailbox.env Mailbox.job_page "https://j.example"))).
    rewrite !not_elem_of_cons.
    repeat split; try discriminate. apply not_elem_of_nil.
  - transitivity (Some (VStr (Str.strip ("Engineer " +:+ Mailbox.nbsp))));
      [|reflexivity].
    apply (proj2 (proj1 (proj2
             (@job_info_fields unit Mailbox.env Mailbox.job_page "https://j.example"))
             "job_title" title_patterns (list_elem_of_here _ _))
             ["(?i)<title>(.+?)\s*[-|]\s*(.+?)</title>";
              "(?i)job title:\s*(.+?)(?:\n|$)"]
             "(?i)position:\s*(.+?)(?:\n|$)" []
             ("Engineer " +:+ Mailbox.nbsp) eq_refl).
    + intros q Hq.
      apply elem_of_cons in Hq as [->|Hq]; [reflexivity|].
      apply list_elem_of_singleton in Hq as ->. reflexivity.
    + reflexivity.
  - apply (proj1 (proj1 (proj2
             (@job_info_fields unit Mailbox.env Mailbox.job_page "https://j.example"))
             "location" location_patterns
             (list_elem_of_further _ _ _
                (list_elem_of_further _ _ _ (list_elem_of_here _ _))))).
Defined.

(** ** The relevance filter *)

Lemma lower_ascii_idempotent (c : ascii) :
  Str.lower_ascii (Str.lower_ascii c) = Str.lower_ascii c.
Proof. destruct c as [[] [] [] [] [] [] [] []]; reflexivity. Qed.

Lemma lower_idempotent (s : string) : Str.lower (Str.lower s) = Str.lower s.
Proof.
  induction s as [|c s IH]; simpl; [reflexivity|].
  rewrite lower_ascii_idempotent, IH. reflexivity.
Qed.

(** X14. The relevance filter does not look at letter case: putting the
    goal, the title and the body of the hit in lower case does not change
    its answer. *)
Theorem relevance_ignores_case (h : hit) (g : string) :
  _is_relevant_result (lower_hit h) (Str.lower g) = _is_relevant_result h g.
Proof.
  unfold _is_relevant_result, lower_hit, get_or.
  rewrite lookup_insert_eq.
  rewrite lookup_insert_ne by discriminate. rewrite lookup_insert_eq.
  simpl. rewrite !lower_idempotent. reflexivity.
Qed.

(** X15. A hit that has neither a title nor a body is accepted exactly
    when the goal has no category: under an email, website or job goal it
    is rejected, the missing fields counting as empty text. *)
Theorem hit_without_text_needs_generic_goal (h : hit) (g : string) :
  h !! "title" = None -> h !! "body" = None ->
  _is_relevant_result h g =
    negb (Str.contains "email" (Str.lower g)
          || Str.contains "website" (Str.lower g)
          || Str.contains "job" (Str.lower g)).
Proof.
  intros Ht Hb. unfold _is_relevant_result, get_or. rewrite Ht, Hb. simpl.
  destruct (Str.contains "email" _); [reflexivity|].
  destruct (Str.contains "website" _); [reflexivity|].
  destruct (Str.contains "job" _); reflexivity.
Qed.

Lemma hit_without_text_needs_generic_goal_witness :
  _is_relevant_result ∅ "Find recruiter email" = false /\
  _is_relevant_result ∅ "Find mountains" = true.
Proof.
  split.
  - rewrite (hit_without_text_needs_generic_goal ∅ "Find recruiter email");
      reflexivity.
  - rewrite (hit_without_text_needs_generic_goal ∅ "Find mountains");
      reflexivity.
Defined.

(** ** Hits that are not recorded *)

Section Unusable.

Context {World : Type} `{!Externals World}.

Lemma process_hit_unusable (g : string) (results : list record) (h : hit) (w : World) :
  get_or h "href" EmptyString = EmptyString \/ _is_relevant_result h g = false ->
  (process_hit g results h w).1 = results.
Proof.
  intros [Hurl|Hrel]; unfold process_hit.
  - destruct (_is_relevant_result h g); [|reflexivity].
    rewrite Hurl. reflexivity.
  - rewrite Hrel. reflexivity.
Qed.

Lemma process_hits_unusable (g : string) (hits : list hit) :
  Forall (fun h => get_or h "href" EmptyString = EmptyString \/
                   _is_relevant_result h g = false) hits ->
  forall (results : list record) (w : World),
    (foldM (process_hit g) hits results w).1 = results.
Proof.
  induction 1 as [|h hits Hh Hhits IH]; intros results w; simpl; [reflexivity|].
  unfold bind. rewrite (process_hit_unusable g results h w Hh). apply IH.
Qed.

(** Every hit of the provider lacks an address or fails the relevance
    filter for goal [g]. *)
Lemma search_unusable (g q : string) (w : World) :
  (forall q0 n w0 hits h,
     (ddgs_text q0 n w0).1 = inr hits -> h ∈ hits ->
     get_or h "href" EmptyString = EmptyString \/ _is_relevant_result h g = false) ->
  Forall (fun h => get_or h "href" EmptyString = EmptyString \/
                   _is_relevant_result h g = false) (search q 5 w).1.
Proof.
  intros Hall. unfold search, bind.
  pose proof (Hall q 5 w) as Hq.
  destruct (ddgs_text q 5 w) as [[e|hits] w1]; simpl in *; [constructor|].
  apply Forall_forall. intros h Hh. apply (Hq hits h eq_refl Hh).
Qed.

Lemma perform_search_unusable (query g : string) (w : World) :
  (forall q0 n w0 hits h,
     (ddgs_text q0 n w0).1 = inr hits -> h ∈ hits ->
     get_or h "href" EmptyString = EmptyString \/ _is_relevant_result h g = false) ->
  (_perform_search query g w).1 = [].
Proof.
  intros Hall. unfold _perform_search.
  generalize (take 2 (enhanced_queries query g)) as l.
  generalize (@nil record) as results. intros results l. revert results w.
  induction l as [|q l IH]; intros results w; simpl; [reflexivity|].
  unfold bind at 1. unfold bind at 2.
  rewrite (process_hits_unusable g _ (search_unusable g q w Hall)).
  apply IH.
Qed.

(** X16. Hits without an address and hits the relevance filter rejects
    are never recorded: when every hit the provider returns is of one of
    these two kinds, a round leaves the results exactly as they were (and
    still marks its queries attempted and counts as an iteration). *)
Theorem round_records_no_unusable_hit (s : AgentState) (w : World) :
  (forall q n w0 hits h,
     (ddgs_text q n w0).1 = inr hits -> h ∈ hits ->
     get_or h "href" EmptyString = EmptyString \/
     _is_relevant_result h (goal s) = false) ->
  current_results (_execute_search s w).1 = current_results s /\
  attempted_sources (_execute_search s w).1
    = attempted_sources s ++ take 3 (untried s) /\
  iteration_count (_execute_search s w).1 = iteration_count s + 1.
Proof.
  intros Hall. split; [|split; [|apply execute_iteration]].
  - unfold _execute_search, bind; simpl.
    generalize (take 3 (untried s)) as l. intros l.
    assert (Hgen : forall (s0 : AgentState) (w0 : World),
              goal s0 = goal s ->
              current_results (foldM try_query l s0 w0).1 = current_results s0).
    { induction l as [|q l IH]; intros s0 w0 Hg; simpl; [reflexivity|].
      unfold bind. rewrite IH by exact Hg.
      unfold try_query, bind; simpl.
      rewrite Hg, (perform_search_unusable q (goal s) w0 Hall). reflexivity. }
    apply Hgen. reflexivity.
  - unfold _execute_search, bind; simpl. apply round_attempted.
Qed.

End Unusable.

Lemma round_records_no_unusable_hit_witness :
  current_results (@_execute_search unit Mailbox.env_unusable Mailbox.email_round tt).1
    = current_results Mailbox.email_round /\
  attempted_sources (@_execute_search unit Mailbox.env_unusable Mailbox.email_round tt).1
    = attempted_sources Mailbox.email_round ++ take 3 (untried Mailbox.email_round) /\
  iteration_count (@_execute_search unit Mailbox.env_unusable Mailbox.email_round tt).1
    = iteration_count Mailbox.email_round + 1.
Proof.
  apply (@round_records_no_unusable_hit unit Mailbox.env_unusable
           Mailbox.email_round tt).
  intros q n w0 hits h Hhits Hh. simpl in Hhits. injection Hhits as <-.
  apply elem_of_cons in Hh as [->|Hh]; [left; reflexivity|].
  apply list_elem_of_singleton in Hh as ->. right. reflexivity.
Defined.

(** ** Finalization at the bounds *)

(** X17. With a target that is not negative, finalization returns the
    first [target_count] results or all of them if there are fewer, never
    more than the target, and finalizing again does not change them. With
    a negative target [-k] it removes the last [k] results (all of them
    when there are no more than [k]). *)
Theorem finalization_bounds (s : AgentState) :
  (0 <= target_count s ->
   length (current_results (_finalize_results s))
     = Nat.min (Z.to_nat (target_count s)) (length (current_results s)) /\
   Z.of_nat (length (current_results (_finalize_results s))) <= target_count s /\
   current_results (_finalize_results (_finalize_results s))
     = current_results (_finalize_results s)) /\
  (target_count s < 0 ->
   current_results (_finalize_results s)
     = take (length (current_results s) - Z.to_nat (- target_count s))
         (current_results s)).
Proof.
  pose proof (finalize_frame s) as (_&_&_&_&_&Ht&Hr).
  pose proof (finalize_frame (_finalize_results s)) as (_&_&_&_&_&_&Hr2).
  split.
  - intros Hpos. rewrite Hr2, Ht, Hr, !slice_to_nonneg by assumption.
    rewrite length_take, take_take, Nat.min_id.
    repeat split; try reflexivity. lia.
  - intros Hneg. rewrite Hr. unfold slice_to.
    destruct (Z.leb_spec 0 (target_count s)); [lia|].
    f_equal. lia.
Qed.

Lemma finalization_bounds_witness :
  (length (current_results (_finalize_results TwelveFound.after_round))
     = Nat.min (Z.to_nat (target_count TwelveFound.after_round))
         (length (current_results TwelveFound.after_round)) /\
   Z.of_nat (length (current_results (_finalize_results TwelveFound.after_round)))
     <= target_count TwelveFound.after_round /\
   current_results (_finalize_results (_finalize_results TwelveFound.after_round))
     = current_results (_finalize_results TwelveFound.after_round)) /\
  current_results (_finalize_results Mailbox.negative_target)
    = take (length (current_results Mailbox.negative_target)
            - Z.to_nat (- target_count Mailbox.negative_target))
        (current_results Mailbox.negative_target).
Proof.
  split.
  - apply (proj1 (finalization_bounds TwelveFound.after_round)). simpl; lia.
  - apply (proj2 (finalization_bounds Mailbox.negative_target)). simpl; lia.
Defined.

(** ** Planning and the ledger *)

Lemma add_new_queries_prefix (ledger new : list string) :
  ledger `prefix_of` add_new_queries ledger new.
Proof.
  rewrite add_new_queries_merge. unfold merge_suppressing.
  apply prefix_app_r. reflexivity.
Qed.

Section PlanningKeepsLedger.

Context {World : Type} `{!Externals World}.

(** X18. Neither planning step removes or reorders a query: in the
    parsed and in the fallback path of both, the ledger before the step is
    a prefix of the ledger after it; and neither touches the attempted
    queries or the results. *)
Theorem planning_keeps_ledger_as_prefix (s : AgentState) (w : World) :
  search_queries s `prefix_of` search_queries (_generate_search_strategy s w).1 /\
  search_queries s `prefix_of` search_queries (_refine_strategy s w).1 /\
  attempted_sources (_generate_search_strategy s w).1 = attempted_sources s /\
  attempted_sources (_refine_strategy s w).1 = attempted_sources s /\
  current_results (_generate_search_strategy s w).1 = current_results s /\
  current_results (_refine_strategy s w).1 = current_results s.
Proof.
  repeat apply conj.
  - unfold _generate_search_strategy, bind; simpl.
    destruct (loads_queries _); simpl; [apply add_new_queries_prefix|].
    destruct (Str.contains "website" _); [apply prefix_app_r; reflexivity|].
    destruct (Str.contains "email" _); [apply prefix_app_r; reflexivity|].
    reflexivity.
  - unfold _refine_strategy, bind; simpl.
    destruct (loads_queries _); simpl; [apply add_new_queries_prefix|].
    rewrite refine_fallback_loop. apply add_new_queries_prefix.
  - unfold _generate_search_strategy, bind; simpl.
    destruct (loads_queries _); [reflexivity|].
    destruct (Str.contains "website" _); [reflexivity|].
    destruct (Str.contains "email" _); reflexivity.
  - unfold _refine_strategy, bind; simpl.
    destruct (loads_queries _); reflexivity.
  - pose proof (generate_frame s w) as (_&_&Hr&_). exact Hr.
  - pose proof (refine_frame s w) as (_&_&Hr&_). exact Hr.
Qed.

End PlanningKeepsLedger.

(** ** Progress through the ledger *)

Lemma filter_agree {A} (P Q : A -> Prop) `{!forall x, Decision (P x)}
    `{!forall x, Decision (Q x)} (l : list A) :
  (forall x, x ∈ l -> (P x <-> Q x)) -> filter P l = filter Q l.
Proof.
  induction l as [|x l IH]; intros Hpq; [reflexivity|].
  rewrite !filter_cons.
  assert (Hx : P x <-> Q x) by (apply Hpq, list_elem_of_here).
  rewrite IH by (intros y Hy; apply Hpq, list_elem_of_further, Hy).
  destruct (decide (P x)), (decide (Q x)); tauto.
Qed.

Lemma filter_not_in_take (n : nat) :
  forall (l : list string),
    NoDup l -> filter (fun q => q ∉ take n l) l = drop n l.
Proof.
  induction n as [|n IH]; intros l Hnd.
  - rewrite take_0, drop_0. apply filter_not_in_nil.
  - destruct l as [|x l]; [reflexivity|].
    apply NoDup_cons in Hnd as [Hx Hnd]. simpl.
    rewrite filter_cons_False by (intros Hn; apply Hn, list_elem_of_here).
    rewrite <- (IH l Hnd). apply filter_agree.
    intros y Hy. rewrite not_elem_of_cons.
    split; [tauto|]. intros Hny. split; [|exact Hny].
    intros ->. contradiction.
Qed.

Section Progress.

Context {World : Type} `{!Externals World}.

(** X19. On a ledger without repeated queries a round consumes the first
    three untried queries: the untried queries after the round are the
    untried queries before it without their first three, whatever the
    searches returned. *)
Theorem round_consumes_three_untried (s : AgentState) (w : World) :
  NoDup (search_queries s) ->
  untried (_execute_search s w).1 = drop 3 (untried s) /\
  length (untried (_execute_search s w).1) = (length (untried s) - 3)%nat.
Proof.
  intros Hnd.
  assert (Heq : untried (_execute_search s w).1 = drop 3 (untried s)).
  { pose proof (execute_control s w) as (_&_&Hled&_).
    assert (Hatt : attempted_sources (_execute_search s w).1
                   = attempted_sources s ++ take 3 (untried s))
      by (unfold _execute_search, bind; simpl; apply round_attempted).
    unfold untried at 1. rewrite Hled, Hatt.
    rewrite <- (filter_not_in_take 3 (untried s))
      by (unfold untried; apply NoDup_filter, Hnd).
    transitivity
      (filter (fun q => q ∉ take 3 (untried s))
         (filter (fun q => q ∉ attempted_sources s) (search_queries s)));
      [|reflexivity].
    rewrite list_filter_filter.
    apply list_filter_iff. intros q. rewrite elem_of_app. tauto. }
  split; [exact Heq|]. rewrite Heq. apply length_drop.
Qed.

End Progress.

Lemma round_consumes_three_untried_witness :
  untried (@_execute_search unit PagedSearch.env PagedSearch.start tt).1
    = drop 3 (untried PagedSearch.start) /\
  length (untried (@_execute_search unit PagedSearch.env PagedSearch.start tt).1)
    = (length (untried PagedSearch.start) - 3)%nat.
Proof.
  apply (@round_consumes_three_untried unit PagedSearch.env PagedSearch.start tt).
  apply NoDup_cons. split.
  - intros Hin. apply list_elem_of_singleton in Hin. discriminate.
  - apply NoDup_singleton.
Defined.
